(** * Graphiti memory adapter: a shallow embedding of
      [src/memory/graphiti-adapter.ts] and the properties of its
      connectivity state machine, write buffer, cache search and
      lifecycle operations.

    Modelling conventions.
    - A JavaScript [Map] is an association list in insertion order with
      at most one binding per key ([JsMap]); iteration order is list order.
    - The adapter object, the events it has emitted, the remote tool
      invocations it has made and the log lines it has written form one
      record ([Adapter]); every method is a function in a state-and-exception
      monad over that record.  A thrown JavaScript exception keeps the
      mutations made before the throw.
    - A public [async] method is run to completion: interleavings of two
      methods at an [await] are outside the model.  The constructor does
      not await [initialize]: what [initialize] does after its [await] is
      an event of its own ([op_startupResumes]), which may come after
      calls made in the same turn as [new].  While the start-up is pending
      the adapter is not connected and has no timer
      ([pending_adapter_is_idle]), so [destroy] is the one method that can
      reach an [await] then; the lifetime ([step]) runs it with its await
      points written out ([awaited_destroy]): at the first one the pending
      start-up resumes, inside [destroy].
    - Strings are byte strings: text in UTF-8, under which [includes] on
      well-formed text is the substring test on bytes.
      [String.prototype.toLowerCase] follows the Unicode case mappings,
      which are no part of the source: it is a parameter ([Casing]); on
      text of ASCII characters it is [asciiLower], which the examples
      use.
    - [Date] values are integers (milliseconds); numbers that the code
      uses as counts or limits are integers, relevance scores rationals. *)

From Stdlib Require Import List String Ascii ZArith QArith Bool Lia.
From Stdlib Require Import Permutation.
Import ListNotations.
Close Scope Q_scope.
Local Open Scope string_scope.
Local Open Scope list_scope.

Set Implicit Arguments.

(* ================================================================= *)
(** ** JavaScript values used by the adapter *)

(** The value carried by a JavaScript exception. *)
Definition JsError := string.

(** Outcome of evaluating a JavaScript expression or awaiting a promise. *)
Inductive Result (A : Type) : Type :=
| Returned (a : A)
| Thrown (e : JsError).
Arguments Returned {A} a.
Arguments Thrown {A} e.

(** [a || b] on an optional string: [undefined] and [''] are falsy. *)
Definition str_or (a : option string) (b : option string) : option string :=
  match a with
  | Some EmptyString => b
  | Some s => Some s
  | None => b
  end.

Definition str_or_lit (a : option string) (d : string) : string :=
  match a with
  | Some EmptyString => d
  | Some s => s
  | None => d
  end.

(** [a || b] on an optional number: [undefined] and [0] are falsy. *)
Definition num_or (a : option Z) (b : option Z) : option Z :=
  match a with
  | Some 0%Z => b
  | Some n => Some n
  | None => b
  end.

Definition num_or_lit (a : option Z) (d : Z) : Z :=
  match a with
  | Some 0%Z => d
  | Some n => n
  | None => d
  end.

(** Truthiness of an optional boolean configuration flag. *)
Definition flag (a : option bool) : bool :=
  match a with
  | Some b => b
  | None => false
  end.

(** [Array.prototype.slice(start, end)] for integer arguments. *)
Definition js_index (len i : Z) : Z :=
  if (i <? 0)%Z then Z.max (len + i) 0 else Z.min i len.

Definition slice {A : Type} (l : list A) (start stop : Z) : list A :=
  let len := Z.of_nat (List.length l) in
  let k := js_index len start in
  let fin := js_index len stop in
  firstn (Z.to_nat (fin - k)) (skipn (Z.to_nat k) l).

(** [Array.prototype.slice(start)]: up to the end of the array. *)
Definition slice_from {A : Type} (l : list A) (start : Z) : list A :=
  slice l start (Z.of_nat (List.length l)).

(** *** Strings *)

(** [String.prototype.toLowerCase]: the case mapping of the JavaScript
    engine, a function from strings to strings about which the adapter
    assumes nothing. *)
Class Casing : Type := { toLowerCase : string -> string }.

Definition lower_ascii (c : ascii) : ascii :=
  let n := nat_of_ascii c in
  if (65 <=? n)%nat && (n <=? 90)%nat then ascii_of_nat (n + 32) else c.

(** [toLowerCase] on text of ASCII characters: the letters A-Z are
    folded, everything else is kept. *)
Fixpoint asciiLower (s : string) : string :=
  match s with
  | EmptyString => EmptyString
  | String c r => String (lower_ascii c) (asciiLower r)
  end.

(** [s.startsWith(q)]. *)
Fixpoint startsWith (s q : string) {struct q} : bool :=
  match q, s with
  | EmptyString, _ => true
  | String _ _, EmptyString => false
  | String a q', String b s' => Ascii.eqb a b && startsWith s' q'
  end.

(** [s.includes(q)]: [q] occurs in [s] at some position. *)
Fixpoint includes (s q : string) : bool :=
  startsWith s q ||
  match s with
  | EmptyString => false
  | String _ s' => includes s' q
  end.

(** [xs.some(p)]. *)
Definition some {A : Type} (p : A -> bool) (xs : list A) : bool := existsb p xs.

(* ================================================================= *)
(** ** [Map<string, V>] *)

Module JsMap.
Section Map.
Variable V : Type.

Definition t := list (string * V).

Definition empty : t := [].

Fixpoint get (k : string) (m : t) : option V :=
  match m with
  | [] => None
  | (k', v) :: r => if String.eqb k k' then Some v else get k r
  end.

(** [set] overwrites in place when the key is bound and appends a new
    binding at the end of the iteration order otherwise. *)
Fixpoint set (k : string) (v : V) (m : t) : t :=
  match m with
  | [] => [(k, v)]
  | (k', v') :: r =>
      if String.eqb k k' then (k', v) :: r else (k', v') :: set k v r
  end.

Definition clear (m : t) : t := [].
Definition size (m : t) : nat := List.length m.
Definition keys (m : t) : list string := map fst m.
Definition values (m : t) : list V := map snd m.
Definition entries (m : t) : list (string * V) := m.

(** A [Map] binds each key at most once. *)
Definition wf (m : t) : Prop := NoDup (keys m).
End Map.
Arguments empty {V}.
End JsMap.

(* ================================================================= *)
(** ** Data model *)

Inductive EpisodeSource : Type := src_text | src_json | src_message.

Record GraphitiConfig : Type := mkConfig {
  cfg_enabled : bool;
  cfg_apiEndpoint : option string;
  cfg_apiKey : option string;
  cfg_defaultGroupId : option string;
  cfg_maxNodes : option Z;
  cfg_maxFacts : option Z;
  cfg_enableAutoSync : option bool;
  cfg_syncInterval : option Z;
  cfg_enableTemporalTracking : option bool;
  cfg_knowledgeRetentionDays : option Z
}.

Record GraphitiNode : Type := mkNode {
  node_uuid : string;
  node_name : string;
  node_entityType : string;
  node_observations : list string;
  node_groupId : string;
  node_createdAt : Z;
  node_updatedAt : Z;
  node_summary : option string
}.

Record GraphitiEdge : Type := mkEdge {
  edge_uuid : string;
  edge_from : string;
  edge_to : string;
  edge_relationType : string;
  edge_groupId : string;
  edge_createdAt : Z;
  edge_invalid : option bool;
  edge_validUntil : option Z
}.

Record GraphitiEpisode : Type := mkEpisode {
  ep_uuid : string;
  ep_name : string;
  ep_content : string;
  ep_source : EpisodeSource;
  ep_sourceDescription : option string;
  ep_groupId : string;
  ep_createdAt : Z
}.

Record GraphitiSearchResult : Type := mkSearchResult {
  res_nodes : option (list GraphitiNode);
  res_edges : option (list GraphitiEdge);
  res_facts : option (list string);
  res_relevanceScore : Q
}.

(** The part of a [MemoryEntry] (declared in [advanced-memory-manager])
    that [fromMemoryEntry] reads.  [me_json] is what [JSON.stringify]
    makes of the content object built from the entry's [key], [value],
    [type], [tags], [metadata], [references] and [dependencies]: the text,
    or the error it throws on a value it cannot serialise (a cycle, a
    BigInt). *)
Record MemoryEntry : Type := mkMemoryEntry {
  me_key : string;
  me_namespace : string;
  me_json : Result string
}.

(** The second argument of [addMemory]. *)
Record AddMemoryOptions : Type := mkAddMemoryOptions {
  am_source : option EpisodeSource;
  am_sourceDescription : option string;
  am_groupId : option string
}.

(** The second argument of [searchNodes]. *)
Record SearchNodesOptions : Type := mkSearchNodesOptions {
  sn_groupIds : option (list string);
  sn_maxNodes : option Z;
  sn_entityType : option string;
  sn_centerNodeUuid : option string
}.

(** The second argument of [searchFacts].  Its declared type has no
    [maxNodes]; [sf_maxNodes] is the [maxNodes] property that the object
    the caller passes may carry all the same, and that [fallbackSearch],
    which is handed the object as it is, reads. *)
Record SearchFactsOptions : Type := mkSearchFactsOptions {
  sf_groupIds : option (list string);
  sf_maxFacts : option Z;
  sf_centerNodeUuid : option string;
  sf_maxNodes : option Z
}.

(** *** The remote tool interface *)

(** One call of [callGraphitiTool(toolName, params)]. *)
Inductive ToolCall : Type :=
| add_memory (name episode_body : string) (source : EpisodeSource)
    (source_description : option string) (group_id uuid : string)
| search_memory_nodes (query : string) (group_ids : option (list string))
    (max_nodes : option Z) (entity center_node_uuid : option string)
| search_memory_facts (query : string) (group_ids : option (list string))
    (max_facts : option Z) (center_node_uuid : option string)
| get_episodes (group_id : option string) (last_n : Z)
| clear_graph.

(** The object a tool call resolves to. *)
Record ToolResult : Type := mkToolResult {
  tr_nodes : option (list GraphitiNode);
  tr_edges : option (list GraphitiEdge);
  tr_facts : option (list string);
  tr_episodes : option (list GraphitiEpisode);
  tr_relevanceScore : option Q
}.

(** The remote service: what a call resolves to, given the calls made
    before it. *)
Definition Remote := list ToolCall -> ToolCall -> Result ToolResult.

(** *** Events and log lines *)

Inductive Event : Type :=
| ev_connected
| ev_fallback
| ev_error (error : JsError)
| ev_memory_added (episode : GraphitiEpisode)
| ev_fact_updated (edgeUuid : string) (isValid : bool) (validUntil : option Z)
| ev_hivemind_share (nodes : list GraphitiNode) (targetSwarms : list string)
    (timestamp : Z)
| ev_graph_cleared
| ev_sync_completed (at_ : Z)
| ev_destroyed.

Inductive LogLevel : Type := lv_info | lv_warn | lv_error | lv_debug.

(** A handle returned by [setInterval]. *)
Record Timeout : Type := mkTimeout { interval : option Z }.
(* [interval] is the delay argument handed to [setInterval], not the
   period the runtime then uses. *)

(* ================================================================= *)
(** ** The adapter object and its environment *)

Record Adapter : Type := mkAdapter {
  config : GraphitiConfig;
  isConnected : bool;
  syncTimer : option Timeout;
  episodeQueue : JsMap.t (list GraphitiEpisode);
  nodeCache : JsMap.t GraphitiNode;
  edgeCache : JsMap.t GraphitiEdge;
  (** events emitted so far, oldest first *)
  emitted : list Event;
  (** remote tool invocations made so far, oldest first *)
  calls : list ToolCall;
  (** calls made on the logger, oldest first *)
  logged : list (LogLevel * string);
  (** how many times the availability probe has run *)
  probes : nat;
  (** how many identifiers [generateId] has handed out *)
  ids : nat;
  (** what [new Date()] returns *)
  clock : Z;
  (** the promise of the availability probe that [initialize] is
      awaiting, if start-up has not resumed yet *)
  startup : option (Result bool)
}.

Definition with_isConnected (b : bool) (a : Adapter) : Adapter :=
  mkAdapter (config a) b (syncTimer a) (episodeQueue a) (nodeCache a)
    (edgeCache a) (emitted a) (calls a) (logged a) (probes a) (ids a)
    (clock a) (startup a).

Definition with_syncTimer (t : option Timeout) (a : Adapter) : Adapter :=
  mkAdapter (config a) (isConnected a) t (episodeQueue a) (nodeCache a)
    (edgeCache a) (emitted a) (calls a) (logged a) (probes a) (ids a)
    (clock a) (startup a).

Definition with_episodeQueue (q : JsMap.t (list GraphitiEpisode))
    (a : Adapter) : Adapter :=
  mkAdapter (config a) (isConnected a) (syncTimer a) q (nodeCache a)
    (edgeCache a) (emitted a) (calls a) (logged a) (probes a) (ids a)
    (clock a) (startup a).

Definition with_nodeCache (c : JsMap.t GraphitiNode) (a : Adapter) : Adapter :=
  mkAdapter (config a) (isConnected a) (syncTimer a) (episodeQueue a) c
    (edgeCache a) (emitted a) (calls a) (logged a) (probes a) (ids a)
    (clock a) (startup a).

Definition with_edgeCache (c : JsMap.t GraphitiEdge) (a : Adapter) : Adapter :=
  mkAdapter (config a) (isConnected a) (syncTimer a) (episodeQueue a)
    (nodeCache a) c (emitted a) (calls a) (logged a) (probes a) (ids a)
    (clock a) (startup a).

Definition with_emitted (e : list Event) (a : Adapter) : Adapter :=
  mkAdapter (config a) (isConnected a) (syncTimer a) (episodeQueue a)
    (nodeCache a) (edgeCache a) e (calls a) (logged a) (probes a) (ids a)
    (clock a) (startup a).

Definition with_calls (c : list ToolCall) (a : Adapter) : Adapter :=
  mkAdapter (config a) (isConnected a) (syncTimer a) (episodeQueue a)
    (nodeCache a) (edgeCache a) (emitted a) c (logged a) (probes a) (ids a)
    (clock a) (startup a).

Definition with_logged (l : list (LogLevel * string)) (a : Adapter) : Adapter :=
  mkAdapter (config a) (isConnected a) (syncTimer a) (episodeQueue a)
    (nodeCache a) (edgeCache a) (emitted a) (calls a) l (probes a) (ids a)
    (clock a) (startup a).

Definition with_probes (n : nat) (a : Adapter) : Adapter :=
  mkAdapter (config a) (isConnected a) (syncTimer a) (episodeQueue a)
    (nodeCache a) (edgeCache a) (emitted a) (calls a) (logged a) n (ids a)
    (clock a) (startup a).

Definition with_ids (n : nat) (a : Adapter) : Adapter :=
  mkAdapter (config a) (isConnected a) (syncTimer a) (episodeQueue a)
    (nodeCache a) (edgeCache a) (emitted a) (calls a) (logged a) (probes a) n
    (clock a) (startup a).

Definition with_startup (p : option (Result bool)) (a : Adapter) : Adapter :=
  mkAdapter (config a) (isConnected a) (syncTimer a) (episodeQueue a)
    (nodeCache a) (edgeCache a) (emitted a) (calls a) (logged a) (probes a)
    (ids a) (clock a) p.

(* ================================================================= *)
(** ** The monad of adapter methods *)

Definition M (A : Type) : Type := Adapter -> Result A * Adapter.

Definition ret {A : Type} (a : A) : M A := fun st => (Returned a, st).

Definition throw {A : Type} (e : JsError) : M A := fun st => (Thrown e, st).

Definition bind {A B : Type} (m : M A) (k : A -> M B) : M B :=
  fun st =>
    match m st with
    | (Returned a, st') => k a st'
    | (Thrown e, st') => (Thrown e, st')
    end.

(** [try { body } catch (error) { handler }]. *)
Definition tryCatch {A : Type} (body : M A) (handler : JsError -> M A) : M A :=
  fun st =>
    match body st with
    | (Returned a, st') => (Returned a, st')
    | (Thrown e, st') => handler e st'
    end.

Definition this : M Adapter := fun st => (Returned st, st).

Definition update (f : Adapter -> Adapter) : M unit :=
  fun st => (Returned tt, f st).

Declare Scope adapter_scope.
Delimit Scope adapter_scope with adapter.
Notation "x <- m ;; k" := (bind m (fun x => k))
  (at level 61, m at next level, right associativity) : adapter_scope.
Notation "m ;; k" := (bind m (fun _ => k))
  (at level 61, right associativity) : adapter_scope.
Local Open Scope adapter_scope.

(** [for (const x of xs) { body }]. *)
Fixpoint forOf {A : Type} (xs : list A) (body : A -> M unit) : M unit :=
  match xs with
  | [] => ret tt
  | x :: r => body x ;; forOf r body
  end.

(** [this.emit(event, ...)]. *)
Definition emit (ev : Event) : M unit :=
  update (fun st => with_emitted (emitted st ++ [ev]) st).

(** [this.logger?.level(message, ...)]. *)
Definition log (lv : LogLevel) (msg : string) : M unit :=
  update (fun st => with_logged (logged st ++ [(lv, msg)]) st).

(** [options?.field]. *)
Definition optional {R X : Type} (options : option R) (field : R -> option X)
    : option X :=
  match options with
  | Some r => field r
  | None => None
  end.

(** [score || 0.5]: an absent or zero score is replaced. *)
Definition score_or (a : option Q) (d : Q) : Q :=
  match a with
  | Some q => if (Qnum q =? 0)%Z then d else q
  | None => d
  end.

Definition half : Q := Qmake 1 2.
Definition zero : Q := Qmake 0 1.

(* ================================================================= *)
(** ** The methods of [GraphitiMemoryAdapter] *)

(** What [typeof global.mcp__graphiti__add_memory] meets when the probe
    reads the global object. *)
Inductive GlobalLookup : Type :=
| global_function
| global_other_value
| global_undefined
| global_getter_throws (e : JsError).

(** [checkGraphitiAvailability] as shipped: it catches whatever the
    lookup throws and answers [false]. *)
Definition checkGraphitiAvailability (g : GlobalLookup) : Result bool :=
  match g with
  | global_function => Returned true
  | global_other_value => Returned false
  | global_undefined => Returned false
  | global_getter_throws _ => Returned false
  end.

(** An optional property of the object handed to the constructor: the
    object does not have it, or has it as an own property, whose value may
    be [undefined] ([own None]). *)
Inductive Own (X : Type) : Type :=
| absent
| own (value : option X).
Arguments absent {X}.
Arguments own {X} value.

(** The configuration object handed to the constructor. *)
Record ConfigObject : Type := mkConfigObject {
  own_enabled : bool;
  own_apiEndpoint : Own string;
  own_apiKey : Own string;
  own_defaultGroupId : Own string;
  own_maxNodes : Own Z;
  own_maxFacts : Own Z;
  own_enableAutoSync : Own bool;
  own_syncInterval : Own Z;
  own_enableTemporalTracking : Own bool;
  own_knowledgeRetentionDays : Own Z
}.

(** One property of [{ ...defaults, ...config }]: an own property of
    [config] overwrites the default, also when its value is [undefined]. *)
Definition spread {X : Type} (default : option X) (given : Own X) : option X :=
  match given with
  | absent => default
  | own value => value
  end.

Definition mergeConfig (c : ConfigObject) : GraphitiConfig :=
  {| cfg_enabled := own_enabled c;
     cfg_apiEndpoint := spread None (own_apiEndpoint c);
     cfg_apiKey := spread None (own_apiKey c);
     cfg_defaultGroupId := spread None (own_defaultGroupId c);
     cfg_maxNodes := spread (Some 10000%Z) (own_maxNodes c);
     cfg_maxFacts := spread (Some 50000%Z) (own_maxFacts c);
     cfg_enableAutoSync := spread (Some true) (own_enableAutoSync c);
     cfg_syncInterval := spread (Some 30000%Z) (own_syncInterval c);
     cfg_enableTemporalTracking :=
       spread (Some true) (own_enableTemporalTracking c);
     cfg_knowledgeRetentionDays :=
       spread (Some 90%Z) (own_knowledgeRetentionDays c) |}.

(** The stub that [callGraphitiTool] carries in the source: every tool
    call resolves to the same mock data. *)
Definition mockRemote : Remote :=
  fun _ _ =>
    Returned {| tr_nodes := Some []; tr_edges := Some []; tr_facts := Some [];
                tr_episodes := Some []; tr_relevanceScore := Some (Qmake 75 100) |}.

Section Methods.

(** The tool invocation behind [callGraphitiTool] ("this would be
    replaced with actual MCP tool invocation"). *)
Variable invoke : Remote.

(** [generateId] of [utils/helpers]: the identifier handed out at the
    n-th request. *)
Variable generateId : nat -> string.

(** The engine's [toLowerCase]. *)
Context {casing : Casing}.

Definition callGraphitiTool (c : ToolCall) : M ToolResult :=
  log lv_debug "Calling Graphiti tool" ;;
  fun st => (invoke (calls st) c, with_calls (calls st ++ [c]) st).

Definition flushCall (episode : GraphitiEpisode) : ToolCall :=
  add_memory (ep_name episode) (ep_content episode) (ep_source episode)
    (ep_sourceDescription episode) (ep_groupId episode) (ep_uuid episode).

Definition flushEpisode (episode : GraphitiEpisode) : M unit :=
  tryCatch
    (callGraphitiTool (flushCall episode) ;; ret tt)
    (fun error =>
       log lv_error "Failed to flush episode to Graphiti" ;;
       throw error).

(** The body of the inner loop of [syncWithGraphiti]: one delivery
    attempt, its failure logged and swallowed. *)
Definition syncEpisode (episode : GraphitiEpisode) : M unit :=
  tryCatch (flushEpisode episode)
    (fun error => log lv_error "Failed to sync episode").

(** The body of the outer loop: attempt the group's queue, then overwrite
    it with the empty queue. *)
Definition syncGroup (entry : string * list GraphitiEpisode) : M unit :=
  let '(groupId, episodes) := entry in
  forOf episodes syncEpisode ;;
  update (fun st =>
    with_episodeQueue (JsMap.set groupId [] (episodeQueue st)) st).

Definition syncWithGraphiti : M unit :=
  st <- this ;;
  forOf (JsMap.entries (episodeQueue st)) syncGroup ;;
  st <- this ;;
  emit (ev_sync_completed (clock st)).

Definition startAutoSync : M unit :=
  update (fun st =>
    with_syncTimer (Some {| interval := cfg_syncInterval (config st) |}) st).

(** The callback that [setInterval] runs: nothing fires once the timer
    is cleared. *)
Definition tick : M unit :=
  st <- this ;;
  match syncTimer st with
  | Some _ => syncWithGraphiti
  | None => ret tt
  end.

(** [initialize] up to its [await]: the probe has been called and its
    promise is pending. *)
Definition beginInitialize (probe : Result bool) : M unit :=
  update (fun st =>
    with_startup (Some probe) (with_probes (S (probes st)) st)).

(** [initialize] from its [await] on, the probe's promise having settled
    as [probe]. *)
Definition resumeInitialize (probe : Result bool) : M unit :=
  tryCatch
    (isAvailable <- (fun st => (probe, st)) ;;
     if isAvailable : bool then
       update (with_isConnected true) ;;
       emit ev_connected ;;
       log lv_info "Graphiti memory adapter connected successfully" ;;
       st <- this ;;
       if flag (cfg_enableAutoSync (config st)) then startAutoSync
       else ret tt
     else
       log lv_warn
         "Graphiti MCP server not available, running in fallback mode" ;;
       emit ev_fallback)
    (fun error =>
       log lv_error "Failed to initialize Graphiti adapter" ;;
       emit (ev_error error)).

(** The event loop resumes the pending [initialize], if there is one. *)
Definition resumeStartup : M unit :=
  st <- this ;;
  match startup st with
  | Some probe => update (with_startup None) ;; resumeInitialize probe
  | None => ret tt
  end.

(** [initialize] when nothing runs between its two halves. *)
Definition initialize (probe : Result bool) : M unit :=
  beginInitialize probe ;; resumeStartup.

(** [new GraphitiMemoryAdapter(config, logger)] at time [now], with the
    availability probe settling as [probe]: the constructor calls
    [initialize] and does not await it, so the adapter it returns has its
    start-up pending. *)
Definition construct (probe : Result bool) (cfg : ConfigObject) (now : Z)
    : Adapter :=
  let st :=
    {| config := mergeConfig cfg;
       isConnected := false;
       syncTimer := None;
       episodeQueue := JsMap.empty;
       nodeCache := JsMap.empty;
       edgeCache := JsMap.empty;
       emitted := [];
       calls := [];
       logged := [];
       probes := 0;
       ids := 0;
       clock := now;
       startup := None |} in
  if cfg_enabled (config st) then snd (beginInitialize probe st) else st.

(** The constructor with the probe that the source ships. *)
Definition construct_shipped (g : GlobalLookup) (cfg : ConfigObject)
    (now : Z) : Adapter :=
  construct (checkGraphitiAvailability g) cfg now.

(** The adapter once its pending start-up has resumed. *)
Definition started (a : Adapter) : Adapter := snd (resumeStartup a).

Definition newEpisode (name content : string)
    (options : option AddMemoryOptions) (st : Adapter) : GraphitiEpisode :=
  {| ep_uuid := generateId (ids st);
     ep_name := name;
     ep_content := content;
     ep_source :=
       match optional options am_source with
       | Some s => s
       | None => src_text
       end;
     ep_sourceDescription := optional options am_sourceDescription;
     ep_groupId :=
       str_or_lit
         (str_or (optional options am_groupId)
                 (cfg_defaultGroupId (config st)))
         "default";
     ep_createdAt := clock st |}.

Definition addMemory (name content : string)
    (options : option AddMemoryOptions) : M string :=
  st <- this ;;
  let episode := newEpisode name content options st in
  update (with_ids (S (ids st))) ;;
  let groupQueue :=
    match JsMap.get (ep_groupId episode) (episodeQueue st) with
    | Some q => q
    | None => []
    end in
  update (fun st =>
    with_episodeQueue
      (JsMap.set (ep_groupId episode) (groupQueue ++ [episode])
         (episodeQueue st)) st) ;;
  (if isConnected st then flushEpisode episode else ret tt) ;;
  emit (ev_memory_added episode) ;;
  ret (ep_uuid episode).

Definition nodeMatches (query : string) (node : GraphitiNode) : bool :=
  includes (toLowerCase (node_name node)) (toLowerCase query) ||
  some (fun obs => includes (toLowerCase obs) (toLowerCase query))
       (node_observations node).

(** [fallbackSearch(query, options)]; [maxNodes] is [options?.maxNodes]. *)
Definition fallbackSearch (query : string) (maxNodes : option Z)
    (st : Adapter) : GraphitiSearchResult :=
  let results :=
    fold_left
      (fun results node =>
         if nodeMatches query node then results ++ [node] else results)
      (JsMap.values (nodeCache st)) [] in
  {| res_nodes := Some (slice results 0 (num_or_lit maxNodes 10));
     res_edges := None;
     res_facts := None;
     res_relevanceScore :=
       if (0 <? List.length results)%nat then half else zero |}.

Definition searchNodes (query : string)
    (options : option SearchNodesOptions) : M GraphitiSearchResult :=
  tryCatch
    (st <- this ;;
     if negb (isConnected st) then
       ret (fallbackSearch query (optional options sn_maxNodes) st)
     else
       results <-
         callGraphitiTool
           (search_memory_nodes query
              (optional options sn_groupIds)
              (num_or (optional options sn_maxNodes)
                      (cfg_maxNodes (config st)))
              (optional options sn_entityType)
              (optional options sn_centerNodeUuid)) ;;
       ret {| res_nodes := tr_nodes results;
              res_edges := None;
              res_facts := None;
              res_relevanceScore :=
                score_or (tr_relevanceScore results) half |})
    (fun error =>
       log lv_error "Failed to search nodes" ;;
       ret {| res_nodes := Some []; res_edges := None; res_facts := None;
              res_relevanceScore := zero |}).

Definition searchFacts (query : string)
    (options : option SearchFactsOptions) : M GraphitiSearchResult :=
  tryCatch
    (st <- this ;;
     if negb (isConnected st) then
       ret (fallbackSearch query (optional options sf_maxNodes) st)
     else
       results <-
         callGraphitiTool
           (search_memory_facts query
              (optional options sf_groupIds)
              (num_or (optional options sf_maxFacts)
                      (cfg_maxFacts (config st)))
              (optional options sf_centerNodeUuid)) ;;
       ret {| res_nodes := None;
              res_edges := None;
              res_facts := tr_facts results;
              res_relevanceScore :=
                score_or (tr_relevanceScore results) half |})
    (fun error =>
       log lv_error "Failed to search facts" ;;
       ret {| res_nodes := None; res_edges := None; res_facts := Some [];
              res_relevanceScore := zero |}).

(** [formatMemoryContent(entry)]: [JSON.stringify] returns or throws. *)
Definition formatMemoryContent (entry : MemoryEntry) : M string :=
  fun st => (me_json entry, st).

(** The options that [fromMemoryEntry] hands to [addMemory]. *)
Definition entryOptions (entry : MemoryEntry) : AddMemoryOptions :=
  {| am_source := Some src_json;
     am_sourceDescription :=
       Some ("Memory entry from " ++ me_namespace entry)%string;
     am_groupId := Some (me_namespace entry) |}.

Definition fromMemoryEntry (entry : MemoryEntry) : M string :=
  content <- formatMemoryContent entry ;;
  addMemory (me_key entry) content (Some (entryOptions entry)).

Definition getRecentEpisodes (groupId : option string) (limit : option Z)
    : M (list GraphitiEpisode) :=
  let limit := match limit with Some n => n | None => 10%Z end in
  tryCatch
    (st <- this ;;
     if negb (isConnected st) then
       let queue :=
         match JsMap.get (str_or_lit groupId "default") (episodeQueue st)
         with
         | Some q => q
         | None => []
         end in
       ret (slice_from queue (- limit))
     else
       results <-
         callGraphitiTool
           (get_episodes (str_or groupId (cfg_defaultGroupId (config st)))
              limit) ;;
       ret (match tr_episodes results with Some l => l | None => [] end))
    (fun error =>
       log lv_error "Failed to get recent episodes" ;;
       ret []).

Definition clearLocal (st : Adapter) : Adapter :=
  with_episodeQueue (JsMap.clear (episodeQueue st))
    (with_edgeCache (JsMap.clear (edgeCache st))
       (with_nodeCache (JsMap.clear (nodeCache st)) st)).

Definition clearGraph : M unit :=
  tryCatch
    (st <- this ;;
     (if isConnected st then callGraphitiTool clear_graph ;; ret tt
      else ret tt) ;;
     update clearLocal ;;
     emit ev_graph_cleared ;;
     log lv_info "Graphiti knowledge graph cleared")
    (fun error =>
       log lv_error "Failed to clear graph" ;;
       throw error).

Definition updateFactValidity (edgeUuid : string) (isValid : bool)
    (validUntil : option Z) : M unit :=
  st <- this ;;
  if negb (flag (cfg_enableTemporalTracking (config st))) then ret tt
  else
    match JsMap.get edgeUuid (edgeCache st) with
    | Some edge =>
        let edge' :=
          {| edge_uuid := edge_uuid edge;
             edge_from := edge_from edge;
             edge_to := edge_to edge;
             edge_relationType := edge_relationType edge;
             edge_groupId := edge_groupId edge;
             edge_createdAt := edge_createdAt edge;
             edge_invalid := Some (negb isValid);
             edge_validUntil := validUntil |} in
        update (fun st =>
          with_edgeCache (JsMap.set edgeUuid edge' (edgeCache st)) st) ;;
        emit (ev_fact_updated edgeUuid isValid validUntil)
    | None => ret tt
    end.

Definition resolveNodes (nodeUuids : list string) (st : Adapter)
    : list GraphitiNode :=
  flat_map
    (fun uuid =>
       match JsMap.get uuid (nodeCache st) with
       | Some n => [n]
       | None => []
       end)
    nodeUuids.

Definition shareWithHiveMind (nodeUuids targetSwarms : list string)
    : M unit :=
  st <- this ;;
  let nodes := resolveNodes nodeUuids st in
  if (0 <? List.length nodes)%nat then
    emit (ev_hivemind_share nodes targetSwarms (clock st)) ;;
    log lv_info "Shared nodes with hive-mind"
  else ret tt.

Record Statistics : Type := mkStatistics {
  totalNodes : nat;
  totalEdges : nat;
  queuedEpisodes : nat;
  cacheSize : nat;
  stat_isConnected : bool
}.

Definition getStatistics (st : Adapter) : Statistics :=
  {| totalNodes := JsMap.size (nodeCache st);
     totalEdges := JsMap.size (edgeCache st);
     queuedEpisodes :=
       fold_left (fun sum queue => sum + List.length queue)
         (JsMap.values (episodeQueue st)) 0;
     cacheSize := JsMap.size (nodeCache st) + JsMap.size (edgeCache st);
     stat_isConnected := isConnected st |}.

Definition destroy : M unit :=
  update (with_syncTimer None) ;;
  syncWithGraphiti ;;
  update clearLocal ;;
  update (with_isConnected false) ;;
  emit ev_destroyed.

(** *** [destroy] before the start-up has resumed

    While the start-up is pending the adapter is not connected and has no
    timer, so [destroy] is the one method that can reach an [await] then.
    At the first [await] that suspends it the event loop runs the pending
    start-up.  The definitions below are [destroy] and the methods it
    calls with these points written out ([pause]); with no start-up
    pending they are the definitions above. *)

(** A point at which the running method is suspended: [destroy]'s own
    [await], and the [await] inside [callGraphitiTool], which every other
    [await] of these methods comes after. *)
Definition pause : M unit := resumeStartup.

Definition awaited_callGraphitiTool (c : ToolCall) : M ToolResult :=
  log lv_debug "Calling Graphiti tool" ;;
  pause ;;
  fun st => (invoke (calls st) c, with_calls (calls st ++ [c]) st).

Definition awaited_flushEpisode (episode : GraphitiEpisode) : M unit :=
  tryCatch
    (awaited_callGraphitiTool (flushCall episode) ;; ret tt)
    (fun error =>
       log lv_error "Failed to flush episode to Graphiti" ;;
       throw error).

Definition awaited_syncEpisode (episode : GraphitiEpisode) : M unit :=
  tryCatch (awaited_flushEpisode episode)
    (fun error => log lv_error "Failed to sync episode").

Definition awaited_syncGroup (entry : string * list GraphitiEpisode)
    : M unit :=
  let '(groupId, episodes) := entry in
  forOf episodes awaited_syncEpisode ;;
  update (fun st =>
    with_episodeQueue (JsMap.set groupId [] (episodeQueue st)) st).

Definition awaited_syncWithGraphiti : M unit :=
  st <- this ;;
  forOf (JsMap.entries (episodeQueue st)) awaited_syncGroup ;;
  st <- this ;;
  emit (ev_sync_completed (clock st)).

Definition awaited_destroy : M unit :=
  update (with_syncTimer None) ;;
  awaited_syncWithGraphiti ;;
  pause ;;
  update clearLocal ;;
  update (with_isConnected false) ;;
  emit ev_destroyed.

End Methods.

(* ================================================================= *)
(** ** The adapter's lifetime as a state machine *)

(** The public operations of the adapter, the firing of the sync timer
    and the resumption of the pending start-up. *)
Inductive Op : Type :=
| op_addMemory (name content : string) (options : option AddMemoryOptions)
| op_searchNodes (query : string) (options : option SearchNodesOptions)
| op_searchFacts (query : string) (options : option SearchFactsOptions)
| op_fromMemoryEntry (entry : MemoryEntry)
| op_getRecentEpisodes (groupId : option string) (limit : option Z)
| op_clearGraph
| op_updateFactValidity (edgeUuid : string) (isValid : bool)
    (validUntil : option Z)
| op_shareWithHiveMind (nodeUuids targetSwarms : list string)
| op_getStatistics
| op_timerFires
| op_destroy
| op_startupResumes.

Section Lifetime.
Variable invoke : Remote.
Variable generateId : nat -> string.
Context {casing : Casing}.

(** The state after one operation; what it returned or threw is
    dropped.  [destroy] is run with its await points, at which a pending
    start-up resumes; no other method reaches an [await] while the
    start-up is pending. *)
Definition step (st : Adapter) (op : Op) : Adapter :=
  match op with
  | op_addMemory n c o => snd (addMemory invoke generateId n c o st)
  | op_searchNodes q o => snd (searchNodes invoke q o st)
  | op_searchFacts q o => snd (searchFacts invoke q o st)
  | op_fromMemoryEntry e => snd (fromMemoryEntry invoke generateId e st)
  | op_getRecentEpisodes g l => snd (getRecentEpisodes invoke g l st)
  | op_clearGraph => snd (clearGraph invoke st)
  | op_updateFactValidity u v t => snd (updateFactValidity u v t st)
  | op_shareWithHiveMind ns ts => snd (shareWithHiveMind ns ts st)
  | op_getStatistics => st
  | op_timerFires => snd (tick invoke st)
  | op_destroy => snd (awaited_destroy invoke st)
  | op_startupResumes => snd (resumeStartup st)
  end.

Definition run (st : Adapter) (ops : list Op) : Adapter :=
  fold_left step ops st.
End Lifetime.

(* ================================================================= *)
(** ** Concrete adapters for the examples *)

(** The casing of the examples.  Every general lemma below is stated for
    an arbitrary [Casing]; the closed examples, which use ASCII text only,
    are evaluated with this one. *)
#[global] Instance asciiCasing : Casing := {| toLowerCase := asciiLower |}.

Module Samples.

(** A remote service on which every tool call fails. *)
Definition failingRemote : Remote := fun _ _ => Thrown "remote unavailable".

Definition ids (n : nat) : string :=
  String (ascii_of_nat (48 + n)) EmptyString.

Definition defaults : ConfigObject :=
  {| own_enabled := true;
     own_apiEndpoint := absent; own_apiKey := absent;
     own_defaultGroupId := absent;
     own_maxNodes := absent; own_maxFacts := absent;
     own_enableAutoSync := absent; own_syncInterval := absent;
     own_enableTemporalTracking := absent;
     own_knowledgeRetentionDays := absent |}.

Definition disabled : ConfigObject :=
  {| own_enabled := false;
     own_apiEndpoint := absent; own_apiKey := absent;
     own_defaultGroupId := absent;
     own_maxNodes := absent; own_maxFacts := absent;
     own_enableAutoSync := absent; own_syncInterval := absent;
     own_enableTemporalTracking := absent;
     own_knowledgeRetentionDays := absent |}.

(** An adapter whose probe found the tool, its start-up done. *)
Definition connected : Adapter :=
  started (construct (Returned true) defaults 0).

(** An adapter whose probe did not find the tool, its start-up done. *)
Definition degraded : Adapter :=
  started (construct (Returned false) defaults 0).

Definition episode0 : GraphitiEpisode :=
  {| ep_uuid := "0"; ep_name := "n1"; ep_content := "c1";
     ep_source := src_text; ep_sourceDescription := None;
     ep_groupId := "default"; ep_createdAt := 0 |}.

Definition alice : GraphitiNode :=
  {| node_uuid := "u1"; node_name := "Alice"; node_entityType := "person";
     node_observations := ["Likes TEA"]; node_groupId := "default";
     node_createdAt := 0; node_updatedAt := 0; node_summary := None |}.

Definition bob : GraphitiNode :=
  {| node_uuid := "u2"; node_name := "Bob"; node_entityType := "person";
     node_observations := ["met alice once"; "tea"];
     node_groupId := "default";
     node_createdAt := 0; node_updatedAt := 0; node_summary := None |}.

Definition carol : GraphitiNode :=
  {| node_uuid := "u3"; node_name := "Carol"; node_entityType := "person";
     node_observations := []; node_groupId := "default";
     node_createdAt := 0; node_updatedAt := 0; node_summary := None |}.

Definition knows : GraphitiEdge :=
  {| edge_uuid := "e1"; edge_from := "u1"; edge_to := "u2";
     edge_relationType := "knows"; edge_groupId := "default";
     edge_createdAt := 0; edge_invalid := None; edge_validUntil := None |}.

(** A degraded adapter after three writes into two groups. *)
Definition buffered : Adapter :=
  run mockRemote ids degraded
    [op_addMemory "a" "x"
       (Some {| am_source := None; am_sourceDescription := None;
                am_groupId := Some "g1" |});
     op_addMemory "b" "y"
       (Some {| am_source := Some src_json; am_sourceDescription := None;
                am_groupId := Some "g2" |});
     op_addMemory "c" "z"
       (Some {| am_source := None; am_sourceDescription := None;
                am_groupId := Some "g1" |})].

(** A degraded adapter whose caches hold three nodes and one edge.  No
    method of the class adds an entry to either cache, so the entries are
    put there directly, as code with access to the private maps would. *)
Definition cached : Adapter :=
  with_edgeCache [("e1", knows)]
    (with_nodeCache [("u1", alice); ("u2", bob); ("u3", carol)] degraded).

End Samples.

(* ================================================================= *)
(** ** Notions the properties are stated with *)

(** [q] occurs in [s] as a contiguous substring. *)
Definition occursIn (q s : string) : Prop :=
  exists pre post, s = (pre ++ q ++ post)%string.

(** [q] occurs in [s] up to case: the lower-cased [q] occurs in the
    lower-cased [s]. *)
Definition occursIgnoringCase {casing : Casing} (q s : string) : Prop :=
  occursIn (toLowerCase q) (toLowerCase s).

(** Some substring of [s] equals [q] once both are lower-cased letter by
    letter (ASCII text). *)
Definition equalsSubstringIgnoringCase (q s : string) : Prop :=
  exists pre mid post,
    s = (pre ++ mid ++ post)%string /\ asciiLower mid = asciiLower q.

(** The query occurs, ignoring case, in the node's name or in one of its
    observations. *)
Definition matchesQuery {casing : Casing} (query : string)
    (node : GraphitiNode) : Prop :=
  occursIgnoringCase query (node_name node) \/
  exists obs, In obs (node_observations node) /\ occursIgnoringCase query obs.

(** [Selected P l l']: [l'] lists exactly the elements of [l] that satisfy
    [P], each occurrence once and in the order of [l]. *)
Inductive Selected {A : Type} (P : A -> Prop) : list A -> list A -> Prop :=
| selected_nil : Selected P [] []
| selected_keep x l l' : P x -> Selected P l l' -> Selected P (x :: l) (x :: l')
| selected_skip x l l' : ~ P x -> Selected P l l' -> Selected P (x :: l) l'.

(** The events that only start-up can emit. *)
Definition startupEvent (ev : Event) : Prop :=
  match ev with
  | ev_connected | ev_fallback | ev_error _ => True
  | _ => False
  end.

(** The sum of the lengths of all groups' queues. *)
Definition sumOfQueueLengths (q : JsMap.t (list GraphitiEpisode)) : nat :=
  list_sum (map (fun entry => List.length (snd entry)) q).

(** The delivery attempts that draining a buffer asks for: group after
    group in the buffer's order, each group's episodes first to last. *)
Definition attempts (q : JsMap.t (list GraphitiEpisode)) : list ToolCall :=
  flat_map (fun entry => map flushCall (snd entry)) q.

(** The buffer with the same groups, every queue empty. *)
Definition emptied (q : JsMap.t (list GraphitiEpisode))
    : JsMap.t (list GraphitiEpisode) :=
  map (fun entry => (fst entry, [])) q.

(** [unchanged st st']: between [st] and [st'] nothing changed but,
    possibly, the write buffer, the remote calls made and the log. *)
Definition unchanged (st st' : Adapter) : Prop :=
  config st' = config st /\
  isConnected st' = isConnected st /\
  syncTimer st' = syncTimer st /\
  nodeCache st' = nodeCache st /\
  edgeCache st' = edgeCache st /\
  emitted st' = emitted st /\
  probes st' = probes st /\
  ids st' = ids st /\
  clock st' = clock st /\
  startup st' = startup st.

(** What the constructor leaves behind when the adapter is disabled, and
    what no later operation undoes: never probed, never connected, no sync
    timer, no start-up event. *)
Definition dormant (st : Adapter) : Prop :=
  isConnected st = false /\
  syncTimer st = None /\
  probes st = 0 /\
  Forall (fun ev => ~ startupEvent ev) (emitted st) /\
  startup st = None.

(* ================================================================= *)
(** ** Further notions: outcomes and buffer contents *)

(** Every buffered episode, group after group. *)
Definition queued (q : JsMap.t (list GraphitiEpisode)) : list GraphitiEpisode :=
  flat_map snd q.




Definition isDestroy (op : Op) : bool :=
  match op with
  | op_destroy => true
  | _ => false
  end.

Definition isResume (op : Op) : bool :=
  match op with
  | op_startupResumes => true
  | _ => false
  end.

(** No [destroy] is called before the start-up has resumed. *)
Fixpoint resumesBeforeDestroy (ops : list Op) : bool :=
  match ops with
  | [] => true
  | op :: rest =>
      isResume op || (negb (isDestroy op) && resumesBeforeDestroy rest)
  end.

(** The buffer is a [Map] of non-empty group ids, and every queue holds
    episodes of its own group only. *)
Definition grouped (q : JsMap.t (list GraphitiEpisode)) : Prop :=
  JsMap.wf q /\
  Forall (fun g => g <> EmptyString) (JsMap.keys q) /\
  forall g eps, In (g, eps) q -> Forall (fun ep => ep_groupId ep = g) eps.

(** Every buffered episode carries an identifier that [generateId] has
    already handed out, and no two carry the same. *)
Definition distinctIds (generateId : nat -> string) (st : Adapter) : Prop :=
  Forall (fun ep => exists k, k < ids st /\ ep_uuid ep = generateId k)
    (queued (episodeQueue st)) /\
  NoDup (map ep_uuid (queued (episodeQueue st))).

(** A disconnected adapter whose configuration names a default group, as
    the configuration module's defaults do. *)
Definition degradedWithDefaultGroup : Adapter :=
  started
    (construct (Returned false)
       {| own_enabled := true;
          own_apiEndpoint := absent; own_apiKey := absent;
          own_defaultGroupId := own (Some "claude_flow_default");
          own_maxNodes := absent; own_maxFacts := absent;
          own_enableAutoSync := absent; own_syncInterval := absent;
          own_enableTemporalTracking := absent;
          own_knowledgeRetentionDays := absent |} 0).

(** A configuration object that has [enableAutoSync] as an own property
    whose value is [undefined]. *)
Definition autoSyncUndefined : ConfigObject :=
  {| own_enabled := true;
     own_apiEndpoint := absent; own_apiKey := absent;
     own_defaultGroupId := absent;
     own_maxNodes := absent; own_maxFacts := absent;
     own_enableAutoSync := own None; own_syncInterval := absent;
     own_enableTemporalTracking := absent;
     own_knowledgeRetentionDays := absent |}.

(** An identifier generator that never repeats: the n-th identifier is
    n letters long. *)
Fixpoint tally (n : nat) : string :=
  match n with
  | O => EmptyString
  | S k => String "i" (tally k)
  end.


(* ================================================================= *)
(** ** The configuration module
       ([defaultGraphitiConfig], [checkGraphitiAvailability],
       [getGraphitiConfig]) *)

Module ConfigFile.

Record McpSection : Type := mkMcp {
  serverName : string;
  available : bool
}.

Record AdapterSection : Type := mkAdapterSection {
  ad_enabled : bool;
  ad_defaultGroupId : string;
  ad_maxNodes : Z;
  ad_maxFacts : Z;
  ad_enableAutoSync : bool;
  ad_syncInterval : Z;
  ad_enableTemporalTracking : bool;
  ad_knowledgeRetentionDays : Z
}.

Record IntegrationSection : Type := mkIntegration {
  in_enabled : bool;
  in_enablePatternExtraction : bool;
  in_enableInsightGeneration : bool;
  in_enableKnowledgeEvolution : bool;
  in_graphGroupPrefix : string;
  in_minPatternConfidence : Q;
  in_insightGenerationInterval : Z;
  in_knowledgeEvolutionThreshold : Q
}.

Record FeaturesSection : Type := mkFeatures {
  episodeProcessing : bool;
  nodeRelationships : bool;
  temporalReasoning : bool;
  collectiveIntelligence : bool;
  knowledgeSharing : bool;
  patternRecognition : bool;
  insightGeneration : bool
}.

(** The module's objects.  [defaultGraphitiConfig] points to one [mcp]
    object, one [memory.adapter] object, one [hiveMind.integration] object
    and one [features] object.  [{ ...defaultGraphitiConfig }] copies the
    top-level fields only, so every configuration that
    [getGraphitiConfig] returns points to these same objects; an
    assignment through one of them is seen through all.  [console] lists
    the warnings written so far. *)
Record Heap : Type := mkHeap {
  mcp : McpSection;
  adapter : AdapterSection;
  integration : IntegrationSection;
  features : FeaturesSection;
  console : list string
}.

(** The heap when the module has just been loaded. *)
Definition defaultGraphitiConfig : Heap :=
  {| mcp := {| serverName := "graphiti"; available := false |};
     adapter :=
       {| ad_enabled := true;
          ad_defaultGroupId := "claude_flow_default";
          ad_maxNodes := 10000;
          ad_maxFacts := 50000;
          ad_enableAutoSync := true;
          ad_syncInterval := 30000;
          ad_enableTemporalTracking := true;
          ad_knowledgeRetentionDays := 90 |};
     integration :=
       {| in_enabled := true;
          in_enablePatternExtraction := true;
          in_enableInsightGeneration := true;
          in_enableKnowledgeEvolution := true;
          in_graphGroupPrefix := "hivemind_";
          in_minPatternConfidence := Qmake 7 10;
          in_insightGenerationInterval := 60000;
          in_knowledgeEvolutionThreshold := Qmake 8 10 |};
     features :=
       {| episodeProcessing := true;
          nodeRelationships := true;
          temporalReasoning := true;
          collectiveIntelligence := true;
          knowledgeSharing := true;
          patternRecognition := true;
          insightGeneration := true |};
     console := [] |}.

(** What a caller reads through a configuration object: its own
    top-level [enabled] and the module's objects. *)
Record GraphitiConfiguration : Type := mkConfiguration {
  gc_enabled : bool;
  gc_mcp : McpSection;
  gc_adapter : AdapterSection;
  gc_integration : IntegrationSection;
  gc_features : FeaturesSection
}.

(** Reading every field of a configuration object (returned at any
    earlier time) in heap [h]. *)
Definition read (h : Heap) : GraphitiConfiguration :=
  {| gc_enabled := true;
     gc_mcp := mcp h;
     gc_adapter := adapter h;
     gc_integration := integration h;
     gc_features := features h |}.

(** The exported probe: a lookup that throws is caught, warned about and
    answered [false]. *)
Definition checkAvailability (g : GlobalLookup) (h : Heap) : bool * Heap :=
  match g with
  | global_function => (true, h)
  | global_other_value => (false, h)
  | global_undefined => (false, h)
  | global_getter_throws _ =>
      (false,
       mkHeap (mcp h) (adapter h) (integration h) (features h)
         (console h ++ ["Graphiti MCP server not available:"]))
  end.

(** [getGraphitiConfig()]: the heap after the call; the configuration it
    returns is read with [read]. *)
Definition getGraphitiConfig (g : GlobalLookup) (h : Heap) : Heap :=
  let '(isAvailable, h) := checkAvailability g h in
  let h :=
    mkHeap {| serverName := serverName (mcp h); available := isAvailable |}
      (adapter h) (integration h) (features h) (console h) in
  if negb (available (mcp h)) then
    let a := adapter h in
    let i := integration h in
    mkHeap (mcp h)
      {| ad_enabled := ad_enabled a;
         ad_defaultGroupId := ad_defaultGroupId a;
         ad_maxNodes := ad_maxNodes a;
         ad_maxFacts := ad_maxFacts a;
         ad_enableAutoSync := false;
         ad_syncInterval := ad_syncInterval a;
         ad_enableTemporalTracking := ad_enableTemporalTracking a;
         ad_knowledgeRetentionDays := ad_knowledgeRetentionDays a |}
      {| in_enabled := in_enabled i;
         in_enablePatternExtraction := in_enablePatternExtraction i;
         in_enableInsightGeneration := in_enableInsightGeneration i;
         in_enableKnowledgeEvolution := false;
         in_graphGroupPrefix := in_graphGroupPrefix i;
         in_minPatternConfidence := in_minPatternConfidence i;
         in_insightGenerationInterval := in_insightGenerationInterval i;
         in_knowledgeEvolutionThreshold := in_knowledgeEvolutionThreshold i |}
      (features h)
      (console h ++
         ["Graphiti MCP server not available, some features will be limited"])
  else h.

(** The heap after a series of calls, one per lookup outcome. *)
Definition getGraphitiConfigs (gs : list GlobalLookup) (h : Heap) : Heap :=
  fold_left (fun h g => getGraphitiConfig g h) gs h.

(** The lookup found the tool. *)
Definition found (g : GlobalLookup) : bool :=
  match g with
  | global_function => true
  | _ => false
  end.

(** The warnings that one call writes to the console. *)
Definition warnings (g : GlobalLookup) : list string :=
  match g with
  | global_function => []
  | global_other_value | global_undefined =>
      ["Graphiti MCP server not available, some features will be limited"]
  | global_getter_throws _ =>
      ["Graphiti MCP server not available:";
       "Graphiti MCP server not available, some features will be limited"]
  end.

End ConfigFile.

(* ================================================================= *)
(** ** Proof automation *)

(** Unfold the monad under a method's body. *)
Ltac run_method :=
  unfold bind, ret, throw, tryCatch, this, update, emit, log in *;
  simpl in *.

(** Case analysis on whatever the method under study branches on. *)
Ltac branch :=
  repeat match goal with
         | |- context [match ?x with _ => _ end] =>
             lazymatch x with
             | context [match _ with _ => _ end] => fail
             | _ => destruct x eqn:?; simpl in *
             end
         end.

(** Field by field, a state is still dormant; a newly emitted event is
    checked not to be a start-up event. *)
Ltac dormancy :=
  unfold dormant in *; simpl in *;
  repeat match goal with
         | H : _ /\ _ |- _ => destruct H
         end;
  repeat split; auto;
  repeat (apply Forall_app; split; [| constructor; [simpl; auto | constructor]]);
  auto.

Unset Implicit Arguments.

(* ================================================================= *)
(** ** Evaluating the methods on concrete adapters *)

Example connected_startup :
  isConnected Samples.connected = true /\
  emitted Samples.connected = [ev_connected] /\
  syncTimer Samples.connected = Some {| interval := Some 30000%Z |}.
Proof. repeat split; reflexivity. Qed.

Example degraded_startup :
  isConnected Samples.degraded = false /\
  emitted Samples.degraded = [ev_fallback] /\
  syncTimer Samples.degraded = None.
Proof. repeat split; reflexivity. Qed.

Example addMemory_degraded :
  addMemory mockRemote Samples.ids "n1" "c1" None Samples.degraded
  = (Returned "0",
     with_emitted [ev_fallback; ev_memory_added Samples.episode0]
       (with_episodeQueue [("default", [Samples.episode0])]
          (with_ids 1 Samples.degraded))).
Proof. reflexivity. Qed.

Example searchNodes_mock :
  fst (searchNodes mockRemote "alice" None Samples.connected)
  = Returned {| res_nodes := Some []; res_edges := None; res_facts := None;
                res_relevanceScore := Qmake 75 100 |}.
Proof. reflexivity. Qed.

Example fallbackSearch_tea :
  fallbackSearch "tEa" None Samples.cached
  = {| res_nodes := Some [Samples.alice; Samples.bob]; res_edges := None;
       res_facts := None; res_relevanceScore := half |}.
Proof. reflexivity. Qed.

Example fallbackSearch_nothing :
  fallbackSearch "zebra" None Samples.cached
  = {| res_nodes := Some []; res_edges := None;
       res_facts := None; res_relevanceScore := zero |}.
Proof. reflexivity. Qed.

Example buffered_queue :
  episodeQueue Samples.buffered
  = [("g1",
      [{| ep_uuid := "0"; ep_name := "a"; ep_content := "x";
          ep_source := src_text; ep_sourceDescription := None;
          ep_groupId := "g1"; ep_createdAt := 0 |};
       {| ep_uuid := "2"; ep_name := "c"; ep_content := "z";
          ep_source := src_text; ep_sourceDescription := None;
          ep_groupId := "g1"; ep_createdAt := 0 |}]);
     ("g2",
      [{| ep_uuid := "1"; ep_name := "b"; ep_content := "y";
          ep_source := src_json; ep_sourceDescription := None;
          ep_groupId := "g2"; ep_createdAt := 0 |}])] /\
  calls Samples.buffered = [].
Proof. split; reflexivity. Qed.

(** The documented scenario: no remote capability, one write, one
    search. *)
Example degraded_write_then_search :
  let st := snd (addMemory mockRemote Samples.ids "n1" "c1" None
                   Samples.degraded) in
  calls st = [] /\
  fst (searchNodes mockRemote "c1" None st)
  = Returned {| res_nodes := Some []; res_edges := None; res_facts := None;
                res_relevanceScore := zero |}.
Proof. split; reflexivity. Qed.

Example clearGraph_connected_mock :
  let st := snd (addMemory mockRemote Samples.ids "n1" "c1" None
                   Samples.connected) in
  let out := clearGraph mockRemote st in
  fst out = Returned tt /\
  episodeQueue (snd out) = [] /\
  emitted (snd out)
  = [ev_connected; ev_memory_added Samples.episode0; ev_graph_cleared] /\
  calls (snd out)
  = [add_memory "n1" "c1" src_text None "default" "0"; clear_graph].
Proof. repeat split; reflexivity. Qed.

Example destroy_buffered :
  let out := destroy Samples.failingRemote Samples.buffered in
  fst out = Returned tt /\
  getStatistics (snd out)
  = {| totalNodes := 0; totalEdges := 0; queuedEpisodes := 0;
       cacheSize := 0; stat_isConnected := false |} /\
  emitted (snd out)
  = [ev_fallback;
     ev_memory_added
       {| ep_uuid := "0"; ep_name := "a"; ep_content := "x";
          ep_source := src_text; ep_sourceDescription := None;
          ep_groupId := "g1"; ep_createdAt := 0 |};
     ev_memory_added
       {| ep_uuid := "1"; ep_name := "b"; ep_content := "y";
          ep_source := src_json; ep_sourceDescription := None;
          ep_groupId := "g2"; ep_createdAt := 0 |};
     ev_memory_added
       {| ep_uuid := "2"; ep_name := "c"; ep_content := "z";
          ep_source := src_text; ep_sourceDescription := None;
          ep_groupId := "g1"; ep_createdAt := 0 |};
     ev_sync_completed 0; ev_destroyed].
Proof. repeat split; reflexivity. Qed.

Example statistics_buffered :
  getStatistics Samples.buffered
  = {| totalNodes := 0; totalEdges := 0; queuedEpisodes := 3;
       cacheSize := 0; stat_isConnected := false |}.
Proof. reflexivity. Qed.

Example shipped_probe_getter_throws :
  emitted
    (started
       (construct_shipped (global_getter_throws "boom") Samples.defaults 0))
  = [ev_fallback].
Proof. reflexivity. Qed.

Example slice_examples :
  slice [1; 2; 3; 4] 0 2 = [1; 2] /\
  slice [1; 2; 3; 4] 0 10 = [1; 2; 3; 4] /\
  slice [1; 2; 3; 4] 0 (-1) = [1; 2; 3] /\
  slice_from [1; 2; 3; 4] (-2) = [3; 4].
Proof. repeat split; reflexivity. Qed.

(* ================================================================= *)
(** ** Lemmas on [Map] *)

Lemma get_set_same (V : Type) (k : string) (v : V) (m : JsMap.t V) :
  JsMap.get k (JsMap.set k v m) = Some v.
Proof.
  induction m as [|[k' v'] r IH]; simpl.
  - now rewrite String.eqb_refl.
  - destruct (String.eqb k k') eqn:E; simpl; rewrite E; auto.
Qed.

Lemma get_set_other (V : Type) (k k' : string) (v : V) (m : JsMap.t V) :
  k' <> k -> JsMap.get k' (JsMap.set k v m) = JsMap.get k' m.
Proof.
  intros Hne. induction m as [|[k0 v0] r IH]; simpl.
  - destruct (String.eqb k' k) eqn:E; auto.
    apply String.eqb_eq in E. contradiction.
  - destruct (String.eqb k k0) eqn:E; simpl.
    + apply String.eqb_eq in E. subst k0.
      destruct (String.eqb k' k) eqn:E'; auto.
      apply String.eqb_eq in E'. contradiction.
    + now rewrite IH.
Qed.

Lemma get_none_not_key (V : Type) (k : string) (m : JsMap.t V) :
  JsMap.get k m = None <-> ~ In k (JsMap.keys m).
Proof.
  induction m as [|[k' v'] r IH]; simpl.
  - tauto.
  - destruct (String.eqb k k') eqn:E.
    + apply String.eqb_eq in E. subst. split; [discriminate | tauto].
    + apply String.eqb_neq in E. rewrite IH. split.
      * intros H [H1 | H1]; [congruence | tauto].
      * tauto.
Qed.

(** Overwriting a bound key keeps the keys and their order. *)
Lemma keys_set_bound (V : Type) (k : string) (v : V) (m : JsMap.t V) :
  In k (JsMap.keys m) -> JsMap.keys (JsMap.set k v m) = JsMap.keys m.
Proof.
  induction m as [|[k' v'] r IH]; simpl; intros H.
  - contradiction.
  - destruct (String.eqb k k') eqn:E; simpl; auto.
    apply String.eqb_neq in E.
    destruct H as [H | H]; [congruence |].
    f_equal. now apply IH.
Qed.

(** Binding a fresh key appends it to the iteration order. *)
Lemma keys_set_fresh (V : Type) (k : string) (v : V) (m : JsMap.t V) :
  ~ In k (JsMap.keys m) -> JsMap.set k v m = m ++ [(k, v)].
Proof.
  induction m as [|[k' v'] r IH]; simpl; intros H; auto.
  destruct (String.eqb k k') eqn:E.
  - apply String.eqb_eq in E. subst. tauto.
  - f_equal. apply IH. tauto.
Qed.

Lemma set_preserves_wf (V : Type) (k : string) (v : V) (m : JsMap.t V) :
  JsMap.wf m -> JsMap.wf (JsMap.set k v m).
Proof.
  unfold JsMap.wf. intros Hwf.
  destruct (in_dec string_dec k (JsMap.keys m)) as [Hin | Hout].
  - now rewrite keys_set_bound.
  - rewrite keys_set_fresh by assumption.
    unfold JsMap.keys. rewrite map_app. simpl.
    apply NoDup_app; auto.
    + constructor; [simpl; tauto | constructor].
    + intros x Hx [Hx' | []]. subst. contradiction.
Qed.

(* ================================================================= *)
(** ** Running the methods *)

Lemma callGraphitiTool_run (invoke : Remote) (c : ToolCall) (st : Adapter) :
  callGraphitiTool invoke c st
  = (invoke (calls st) c,
     with_calls (calls st ++ [c])
       (with_logged (logged st ++ [(lv_debug, "Calling Graphiti tool")]) st)).
Proof. reflexivity. Qed.

Lemma unchanged_refl (st : Adapter) : unchanged st st.
Proof. unfold unchanged. repeat split. Qed.

Lemma unchanged_trans (st1 st2 st3 : Adapter) :
  unchanged st1 st2 -> unchanged st2 st3 -> unchanged st1 st3.
Proof. unfold unchanged. intuition congruence. Qed.

(** A delivery throws exactly when the remote call does, and makes that
    one call either way. *)
Lemma flushEpisode_run (invoke : Remote) (ep : GraphitiEpisode) (st : Adapter) :
  let out := flushEpisode invoke ep st in
  fst out = match invoke (calls st) (flushCall ep) with
            | Returned _ => Returned tt
            | Thrown e => Thrown e
            end /\
  calls (snd out) = calls st ++ [flushCall ep] /\
  episodeQueue (snd out) = episodeQueue st /\
  unchanged st (snd out).
Proof.
  unfold flushEpisode, callGraphitiTool, unchanged. run_method.
  destruct (invoke (calls st) (flushCall ep)); simpl; repeat split.
Qed.

(** What the resumption of the start-up changes: the connectivity flag,
    the timer, the events and the log, and nothing at all when no
    start-up is pending. *)
Lemma resumeStartup_effect (st : Adapter) :
  let out := resumeStartup st in
  fst out = Returned tt /\
  episodeQueue (snd out) = episodeQueue st /\
  nodeCache (snd out) = nodeCache st /\
  edgeCache (snd out) = edgeCache st /\
  calls (snd out) = calls st /\
  ids (snd out) = ids st /\
  config (snd out) = config st /\
  probes (snd out) = probes st /\
  startup (snd out) = None /\
  (startup st = None -> snd out = st).
Proof.
  unfold resumeStartup, resumeInitialize, startAutoSync. run_method.
  destruct (startup st) as [[[] | e] |] eqn:E; simpl;
    try destruct (flag (cfg_enableAutoSync (config st))); simpl;
    repeat split; try discriminate; assumption.
Qed.

(* ================================================================= *)
(** ** Start-up: the availability probe *)

(** The probe that the source ships never throws, whatever the lookup on
    the global object does; [initialize]'s own handler is for a probe that
    does. *)
Lemma checkGraphitiAvailability_never_throws (g : GlobalLookup) :
  exists b, checkGraphitiAvailability g = Returned b.
Proof. destruct g; simpl; eauto. Qed.

(** C3, as the code has it: when the availability probe throws, the
    adapter stays disconnected and emits an [error] event only, with no
    [fallback] event; when the probe returns [false], the adapter stays
    disconnected and emits a [fallback] event only.  The adapter is taken
    when its start-up, which the constructor leaves pending, has
    resumed. *)
Theorem initialize_without_remote (cfg : ConfigObject) (now : Z) :
  cfg_enabled (mergeConfig cfg) = true ->
  (forall e,
     isConnected (started (construct (Thrown e) cfg now)) = false /\
     emitted (started (construct (Thrown e) cfg now)) = [ev_error e]) /\
  isConnected (started (construct (Returned false) cfg now)) = false /\
  emitted (started (construct (Returned false) cfg now)) = [ev_fallback].
Proof.
  intros Hen. unfold started, construct. simpl in *. rewrite Hen.
  repeat split.
Qed.

Lemma initialize_without_remote_witness :
  (forall e,
     isConnected (started (construct (Thrown e) Samples.defaults 0)) = false /\
     emitted (started (construct (Thrown e) Samples.defaults 0))
     = [ev_error e]) /\
  isConnected (started (construct (Returned false) Samples.defaults 0))
  = false /\
  emitted (started (construct (Returned false) Samples.defaults 0))
  = [ev_fallback].
Proof.
  apply (initialize_without_remote Samples.defaults 0). reflexivity.
Defined.

(** C3 as stated fails: with a probe that throws, an enabled adapter
    emits the [error] event and nothing else, so no [fallback] event. *)
Lemma initialize_throwing_probe_no_fallback :
  emitted (started (construct (Thrown "probe failed") Samples.defaults 0))
  = [ev_error "probe failed"] /\
  ~ In ev_fallback
      (emitted
         (started (construct (Thrown "probe failed") Samples.defaults 0))).
Proof.
  split; [reflexivity |].
  simpl. intros [H | []]. discriminate.
Qed.

(** Right after [new], before the start-up resumes, an enabled adapter
    has probed once, is not connected and has emitted nothing, whatever
    the probe found. *)
Lemma construct_pending (probe : Result bool) (cfg : ConfigObject)
    (now : Z) :
  cfg_enabled (mergeConfig cfg) = true ->
  isConnected (construct probe cfg now) = false /\
  syncTimer (construct probe cfg now) = None /\
  emitted (construct probe cfg now) = [] /\
  probes (construct probe cfg now) = 1 /\
  startup (construct probe cfg now) = Some probe.
Proof.
  intros Hen. unfold construct. simpl in *. rewrite Hen. repeat split.
Qed.

(* ================================================================= *)
(** ** [clearGraph] *)

(** C1, as the code has it: when the adapter is not connected, or the
    remote [clear_graph] call succeeds, both caches and the write buffer
    are cleared and [graph:cleared] is emitted; when the adapter is
    connected and the remote call throws, the error is rethrown, and
    caches, buffer and emitted events are left as they were. *)
Theorem clearGraph_outcomes (invoke : Remote) (st : Adapter) :
  let out := clearGraph invoke st in
  ((isConnected st = false \/
    exists r, invoke (calls st) clear_graph = Returned r) ->
   fst out = Returned tt /\
   nodeCache (snd out) = [] /\
   edgeCache (snd out) = [] /\
   episodeQueue (snd out) = [] /\
   emitted (snd out) = emitted st ++ [ev_graph_cleared]) /\
  (forall e,
     isConnected st = true ->
     invoke (calls st) clear_graph = Thrown e ->
     fst out = Thrown e /\
     nodeCache (snd out) = nodeCache st /\
     edgeCache (snd out) = edgeCache st /\
     episodeQueue (snd out) = episodeQueue st /\
     emitted (snd out) = emitted st).
Proof.
  unfold clearGraph, callGraphitiTool. run_method. split.
  - intros [Hd | [r Hr]].
    + rewrite Hd. simpl. repeat split.
    + destruct (isConnected st); simpl; [rewrite Hr; simpl |]; repeat split.
  - intros e Hc He. rewrite Hc. simpl. rewrite He. simpl. repeat split.
Qed.

(** C1 as stated fails: on a connected adapter with one episode in the
    buffer, a remote [clear_graph] that throws leaves the episode in the
    buffer and no [graph:cleared] event is emitted. *)
Lemma clearGraph_failure_keeps_buffer :
  let st :=
    snd (addMemory Samples.failingRemote Samples.ids "n1" "c1" None
           Samples.connected) in
  let out := clearGraph Samples.failingRemote st in
  fst out = Thrown "remote unavailable" /\
  episodeQueue (snd out) = [("default", [Samples.episode0])] /\
  ~ In ev_graph_cleared (emitted (snd out)).
Proof.
  simpl. repeat split.
  intros [H | []]. discriminate.
Qed.

(* ================================================================= *)
(** ** [addMemory] *)

(** [addMemory] step by step: buffer the episode, deliver it when
    connected, then notify. *)
Lemma addMemory_run (invoke : Remote) (generateId : nat -> string)
    (name content : string) (options : option AddMemoryOptions)
    (st : Adapter) :
  let episode := newEpisode generateId name content options st in
  let before :=
    match JsMap.get (ep_groupId episode) (episodeQueue st) with
    | Some q => q
    | None => []
    end in
  let st1 :=
    with_episodeQueue
      (JsMap.set (ep_groupId episode) (before ++ [episode]) (episodeQueue st))
      (with_ids (S (ids st)) st) in
  addMemory invoke generateId name content options st
  = if isConnected st then
      match flushEpisode invoke episode st1 with
      | (Returned _, st2) =>
          (Returned (ep_uuid episode),
           with_emitted (emitted st2 ++ [ev_memory_added episode]) st2)
      | (Thrown e, st2) => (Thrown e, st2)
      end
    else
      (Returned (ep_uuid episode),
       with_emitted (emitted st1 ++ [ev_memory_added episode]) st1).
Proof.
  intros episode before st1. unfold addMemory. run_method.
  fold episode. destruct (isConnected st); reflexivity.
Qed.

(** [fromMemoryEntry] is [addMemory] on the serialised entry, or the
    error of the serialisation with nothing done. *)
Lemma fromMemoryEntry_run (invoke : Remote) (generateId : nat -> string)
    (entry : MemoryEntry) (st : Adapter) :
  fromMemoryEntry invoke generateId entry st
  = match me_json entry with
    | Returned content =>
        addMemory invoke generateId (me_key entry) content
          (Some (entryOptions entry)) st
    | Thrown e => (Thrown e, st)
    end.
Proof.
  unfold fromMemoryEntry, formatMemoryContent, bind.
  destruct (me_json entry); reflexivity.
Qed.

(** [addMemory] puts the new episode at the tail of its group's queue,
    whatever happens afterwards. *)
Lemma addMemory_enqueues (invoke : Remote) (generateId : nat -> string)
    (name content : string) (options : option AddMemoryOptions)
    (st : Adapter) :
  let episode := newEpisode generateId name content options st in
  let before :=
    match JsMap.get (ep_groupId episode) (episodeQueue st) with
    | Some q => q
    | None => []
    end in
  JsMap.get (ep_groupId episode)
    (episodeQueue (snd (addMemory invoke generateId name content options st)))
  = Some (before ++ [episode]).
Proof.
  intros episode before. rewrite addMemory_run. fold episode. fold before.
  set (st1 := with_episodeQueue _ _).
  destruct (isConnected st).
  - pose proof (flushEpisode_run invoke episode st1) as H. simpl in H.
    destruct H as (_ & _ & Hq & _).
    destruct (flushEpisode invoke episode st1) as [[[]|e] st2]; simpl in *;
      rewrite Hq; subst st1; simpl; apply get_set_same.
  - subst st1. simpl. apply get_set_same.
Qed.

(** C2, as the code has it: when the adapter is connected and the
    immediate delivery throws, the error propagates to the caller, the
    episode stays at the tail of its group's queue, and no [memory:added]
    notification is emitted. *)
Theorem addMemory_delivery_throws (invoke : Remote)
    (generateId : nat -> string) (name content : string)
    (options : option AddMemoryOptions) (st : Adapter) (e : JsError) :
  let episode := newEpisode generateId name content options st in
  let before :=
    match JsMap.get (ep_groupId episode) (episodeQueue st) with
    | Some q => q
    | None => []
    end in
  let out := addMemory invoke generateId name content options st in
  isConnected st = true ->
  invoke (calls st) (flushCall episode) = Thrown e ->
  fst out = Thrown e /\
  JsMap.get (ep_groupId episode) (episodeQueue (snd out))
  = Some (before ++ [episode]) /\
  emitted (snd out) = emitted st.
Proof.
  intros episode before out Hc He. split; [| split].
  - subst out. unfold addMemory, flushEpisode, callGraphitiTool. run_method.
    rewrite Hc. simpl. fold episode. rewrite He. reflexivity.
  - apply addMemory_enqueues.
  - subst out. unfold addMemory, flushEpisode, callGraphitiTool. run_method.
    rewrite Hc. simpl. fold episode. rewrite He. reflexivity.
Qed.

Lemma addMemory_delivery_throws_witness :
  let out :=
    addMemory Samples.failingRemote Samples.ids "n1" "c1" None
      Samples.connected in
  fst out = Thrown "remote unavailable" /\
  JsMap.get "default" (episodeQueue (snd out)) = Some [Samples.episode0] /\
  emitted (snd out) = [ev_connected].
Proof.
  apply (addMemory_delivery_throws Samples.failingRemote Samples.ids
           "n1" "c1" None Samples.connected "remote unavailable");
    reflexivity.
Defined.

(** C2 as stated fails: on a connected adapter whose delivery throws,
    [addMemory] throws and the events emitted are those of before the
    call, so no [memory:added] notification for the episode. *)
Lemma addMemory_failure_emits_nothing :
  let out :=
    addMemory Samples.failingRemote Samples.ids "n1" "c1" None
      Samples.connected in
  fst out = Thrown "remote unavailable" /\
  emitted (snd out) = [ev_connected] /\
  ~ In (ev_memory_added Samples.episode0) (emitted (snd out)).
Proof.
  simpl. repeat split.
  intros [H | []]. discriminate.
Qed.

(* ================================================================= *)
(** ** Strings: [includes] and [toLowerCase] *)

Lemma startsWith_spec (s q : string) :
  startsWith s q = true <-> exists post, s = (q ++ post)%string.
Proof.
  revert s. induction q as [|a q IH]; intros s; simpl.
  - split; [intros _; now exists s | reflexivity].
  - destruct s as [|b s]; simpl.
    + split; [discriminate | intros [post H]; discriminate].
    + rewrite andb_true_iff, Ascii.eqb_eq, IH. split.
      * intros [-> [post ->]]. now exists post.
      * intros [post H]. injection H as -> ->. split; [reflexivity | now exists post].
Qed.

Lemma includes_spec (s q : string) :
  includes s q = true <-> occursIn q s.
Proof.
  unfold occursIn. induction s as [|c s IH].
  - simpl. rewrite orb_false_r, startsWith_spec. split.
    + intros [post H]. now exists EmptyString, post.
    + intros [pre [post H]]. destruct pre; simpl in H.
      * now exists post.
      * discriminate.
  - cbn [includes]. rewrite orb_true_iff, startsWith_spec, IH. split.
    + intros [[post H] | [pre [post H]]].
      * now exists EmptyString, post.
      * exists (String c pre), post. simpl. now rewrite H.
    + intros [pre [post H]]. destruct pre as [|c' pre]; simpl in H.
      * left. now exists post.
      * right. injection H as _ H. now exists pre, post.
Qed.

Lemma asciiLower_app (a b : string) :
  asciiLower (a ++ b) = (asciiLower a ++ asciiLower b)%string.
Proof. induction a as [|c a IH]; simpl; [reflexivity | now rewrite IH]. Qed.

(** [asciiLower] works letter by letter, so a split of the folded string
    is the image of a split of the string. *)
Lemma asciiLower_split (s x y : string) :
  asciiLower s = (x ++ y)%string ->
  exists s1 s2,
    s = (s1 ++ s2)%string /\ asciiLower s1 = x /\ asciiLower s2 = y.
Proof.
  revert s. induction x as [|c x IH]; intros s H; simpl in H.
  - now exists EmptyString, s.
  - destruct s as [|d s]; simpl in H; [discriminate |].
    injection H as Hc H. destruct (IH s H) as (s1 & s2 & -> & <- & <-).
    exists (String d s1), s2. simpl. now rewrite Hc.
Qed.

(** On ASCII text, to occur up to case is to equal some substring up to
    case. *)
Lemma occursIgnoringCase_ascii (q s : string) :
  @occursIgnoringCase asciiCasing q s <-> equalsSubstringIgnoringCase q s.
Proof.
  unfold occursIgnoringCase, occursIn, equalsSubstringIgnoringCase. simpl.
  split.
  - intros [x [y H]].
    apply asciiLower_split in H. destruct H as (pre & rest & -> & <- & H).
    apply asciiLower_split in H. destruct H as (mid & post & -> & H & <-).
    now exists pre, mid, post.
  - intros (pre & mid & post & -> & H).
    exists (asciiLower pre), (asciiLower post).
    now rewrite !asciiLower_app, H.
Qed.

(** The test that [fallbackSearch] applies to one string is containment
    up to case, whatever the engine's case mapping. *)
Lemma includes_toLowerCase_spec {casing : Casing} (s q : string) :
  includes (toLowerCase s) (toLowerCase q) = true <-> occursIgnoringCase q s.
Proof. unfold occursIgnoringCase. apply includes_spec. Qed.

Lemma nodeMatches_spec {casing : Casing} (query : string)
    (node : GraphitiNode) :
  nodeMatches query node = true <-> matchesQuery query node.
Proof.
  unfold nodeMatches, matchesQuery, some.
  rewrite orb_true_iff, includes_toLowerCase_spec, existsb_exists.
  split; (intros [H | [obs [Hin H]]]; [now left | right; exists obs]);
    split; auto; now apply includes_toLowerCase_spec.
Qed.

(* ================================================================= *)
(** ** Lists: the search loop and [slice] *)

(** The loop that pushes the elements passing a test is a filter. *)
Lemma push_loop_filter (A : Type) (p : A -> bool) (l acc : list A) :
  fold_left (fun results x => if p x then results ++ [x] else results) l acc
  = acc ++ filter p l.
Proof.
  revert acc. induction l as [|x l IH]; intros acc; simpl.
  - now rewrite app_nil_r.
  - rewrite IH. destruct (p x); [now rewrite <- app_assoc | reflexivity].
Qed.

Lemma Selected_filter (A : Type) (P : A -> Prop) (p : A -> bool) (l : list A) :
  (forall x, p x = true <-> P x) -> Selected P l (filter p l).
Proof.
  intros Hp. induction l as [|x l IH]; simpl.
  - constructor.
  - destruct (p x) eqn:E.
    + apply selected_keep; [now apply Hp | exact IH].
    + apply selected_skip; [| exact IH].
      intros HP. apply Hp in HP. congruence.
Qed.

(** [Selected] determines its result. *)
Lemma Selected_unique (A : Type) (P : A -> Prop) (l l1 l2 : list A) :
  Selected P l l1 -> Selected P l l2 -> l1 = l2.
Proof.
  intros H1. revert l2. induction H1; intros l2 H2; inversion H2; subst;
    try contradiction; auto.
  f_equal. auto.
Qed.

Lemma firstn_min_length (A : Type) (n : nat) (l : list A) :
  firstn (Nat.min n (List.length l)) l = firstn n l.
Proof.
  destruct (Nat.le_ge_cases n (List.length l)) as [H | H].
  - now rewrite Nat.min_l.
  - rewrite Nat.min_r by assumption.
    now rewrite firstn_all, firstn_all2.
Qed.

(** [l.slice(0, n)] keeps the first [n] elements when [n] is not
    negative. *)
Lemma slice_prefix (A : Type) (l : list A) (n : Z) :
  (0 <= n)%Z -> slice l 0 n = firstn (Z.to_nat n) l.
Proof.
  intros Hn. unfold slice, js_index.
  destruct (Z.ltb_spec n 0) as [H | _]; [lia |].
  rewrite Z.ltb_irrefl.
  rewrite (Z.min_l 0) by lia. simpl (Z.to_nat 0). simpl skipn.
  rewrite Z.sub_0_r, Z2Nat.inj_min, Nat2Z.id.
  apply firstn_min_length.
Qed.

(** [l.slice(0, -k)] drops the last [k] elements. *)
Lemma slice_negative (A : Type) (l : list A) (n : Z) :
  (n < 0)%Z ->
  slice l 0 n = firstn (List.length l - Z.to_nat (- n)) l.
Proof.
  intros Hn. unfold slice, js_index.
  destruct (Z.ltb_spec n 0) as [_ | H]; [| lia].
  rewrite Z.ltb_irrefl.
  rewrite (Z.min_l 0) by lia. simpl (Z.to_nat 0). simpl skipn.
  f_equal. lia.
Qed.

(* ================================================================= *)
(** ** Fallback search *)

(** What [fallbackSearch] collects before truncating: the cached nodes
    that match the query, each once, in the cache's iteration order. *)
Lemma fallbackSearch_collects {casing : Casing}
    (query : string) (maxNodes : option Z)
    (st : Adapter) :
  let matching := filter (nodeMatches query) (JsMap.values (nodeCache st)) in
  Selected (matchesQuery query) (JsMap.values (nodeCache st)) matching /\
  res_nodes (fallbackSearch query maxNodes st)
  = Some (slice matching 0 (num_or_lit maxNodes 10)) /\
  res_relevanceScore (fallbackSearch query maxNodes st)
  = match matching with [] => zero | _ :: _ => half end /\
  res_edges (fallbackSearch query maxNodes st) = None /\
  res_facts (fallbackSearch query maxNodes st) = None.
Proof.
  intros matching. unfold fallbackSearch. simpl.
  rewrite push_loop_filter. simpl. fold matching. repeat split.
  - apply Selected_filter. intros x. apply nodeMatches_spec.
  - destruct matching; reflexivity.
Qed.

(** C5, as the code has it: when the adapter is not connected,
    [searchNodes] returns the fallback search of the cache: the cached
    nodes whose name or one of whose observations contains the query up to
    case, each once and in cache-iteration order, truncated to [maxNodes]
    when the caller supplies a positive one and to 10 when [maxNodes] is
    absent or zero, with relevance 0.5 when some node matched and 0
    otherwise. *)
Theorem searchNodes_fallback {casing : Casing} (invoke : Remote)
    (query : string)
    (options : option SearchNodesOptions) (st : Adapter) :
  isConnected st = false ->
  exists matching result,
    Selected (matchesQuery query) (JsMap.values (nodeCache st)) matching /\
    searchNodes invoke query options st = (Returned result, st) /\
    (optional options sn_maxNodes = None \/
     optional options sn_maxNodes = Some 0%Z ->
     res_nodes result = Some (firstn 10 matching)) /\
    (forall n, optional options sn_maxNodes = Some n -> (0 < n)%Z ->
     res_nodes result = Some (firstn (Z.to_nat n) matching)) /\
    res_relevanceScore result
    = match matching with [] => zero | _ :: _ => half end.
Proof.
  intros Hd.
  destruct (fallbackSearch_collects query (optional options sn_maxNodes) st)
    as (Hsel & Hnodes & Hscore & _).
  eexists. eexists. split; [exact Hsel |].
  split; [| split; [| split]].
  - unfold searchNodes. run_method. rewrite Hd. reflexivity.
  - intros [H | H]; rewrite Hnodes, H; simpl; now rewrite slice_prefix by lia.
  - intros n H Hn. rewrite Hnodes, H.
    replace (num_or_lit (Some n) 10) with n by (destruct n; [lia | |]; reflexivity).
    now rewrite slice_prefix by lia.
  - exact Hscore.
Qed.

Lemma searchNodes_fallback_witness :
  exists matching result,
    Selected (matchesQuery "tEa")
      (JsMap.values (nodeCache Samples.cached)) matching /\
    searchNodes mockRemote "tEa"
      (Some {| sn_groupIds := None; sn_maxNodes := Some 1%Z;
               sn_entityType := None; sn_centerNodeUuid := None |})
      Samples.cached
    = (Returned result, Samples.cached) /\
    res_nodes result = Some (firstn 1 matching) /\
    res_relevanceScore result
    = match matching with [] => zero | _ :: _ => half end.
Proof.
  destruct (searchNodes_fallback mockRemote "tEa"
              (Some {| sn_groupIds := None; sn_maxNodes := Some 1%Z;
                       sn_entityType := None; sn_centerNodeUuid := None |})
              Samples.cached eq_refl)
    as (matching & result & Hsel & Hrun & _ & Hmax & Hscore).
  exists matching, result. repeat split; auto.
  apply (Hmax 1%Z); reflexivity.
Defined.

(** C5 as stated fails: a caller who supplies [maxNodes = 0] to a
    disconnected adapter with two matching cached nodes gets both of them,
    where truncation to the supplied maximum would leave none. *)
Lemma searchNodes_fallback_maxNodes_zero :
  fst (searchNodes mockRemote "alice"
         (Some {| sn_groupIds := None; sn_maxNodes := Some 0%Z;
                  sn_entityType := None; sn_centerNodeUuid := None |})
         Samples.cached)
  = Returned {| res_nodes := Some [Samples.alice; Samples.bob];
                res_edges := None; res_facts := None;
                res_relevanceScore := half |} /\
  firstn (Z.to_nat 0) [Samples.alice; Samples.bob] = [].
Proof. split; reflexivity. Qed.

(** C9: when the adapter is not connected, [searchFacts] returns the
    fallback search result as it is, computed from the very options object
    it was given: the matching cached nodes, truncated as [fallbackSearch]
    truncates them (to ten when the object carries no [maxNodes]), under
    [nodes], and no [facts] field, whatever the cache holds. *)
Theorem searchFacts_fallback {casing : Casing} (invoke : Remote)
    (query : string)
    (options : option SearchFactsOptions) (st : Adapter) :
  isConnected st = false ->
  let result := fallbackSearch query (optional options sf_maxNodes) st in
  searchFacts invoke query options st = (Returned result, st) /\
  res_facts result = None /\
  exists matching,
    Selected (matchesQuery query) (JsMap.values (nodeCache st)) matching /\
    (optional options sf_maxNodes = None \/
     optional options sf_maxNodes = Some 0%Z ->
     res_nodes result = Some (firstn 10 matching)) /\
    (forall n, optional options sf_maxNodes = Some n -> (0 < n)%Z ->
     res_nodes result = Some (firstn (Z.to_nat n) matching)) /\
    (forall n, optional options sf_maxNodes = Some n -> (n < 0)%Z ->
     res_nodes result
     = Some (firstn (List.length matching - Z.to_nat (- n)) matching)).
Proof.
  intros Hd result. subst result.
  destruct (fallbackSearch_collects query (optional options sf_maxNodes) st)
    as (Hsel & Hnodes & _ & _ & Hfacts).
  split; [| split; [exact Hfacts |]].
  - unfold searchFacts. run_method. rewrite Hd. reflexivity.
  - eexists. split; [exact Hsel |]. split; [| split].
    + intros [H | H]; rewrite Hnodes, H; simpl;
        now rewrite slice_prefix by lia.
    + intros n H Hn. rewrite Hnodes, H.
      replace (num_or_lit (Some n) 10) with n
        by (destruct n; [lia | |]; reflexivity).
      now rewrite slice_prefix by lia.
    + intros n H Hn. rewrite Hnodes, H.
      replace (num_or_lit (Some n) 10) with n
        by (destruct n; [lia | |]; reflexivity).
      now rewrite slice_negative by lia.
Qed.

Lemma searchFacts_fallback_witness :
  let options :=
    Some {| sf_groupIds := None; sf_maxFacts := Some 5%Z;
            sf_centerNodeUuid := None; sf_maxNodes := Some 1%Z |} in
  let result := fallbackSearch "tea" (Some 1%Z) Samples.cached in
  searchFacts mockRemote "tea" options Samples.cached
  = (Returned result, Samples.cached) /\
  res_facts result = None /\
  exists matching,
    Selected (matchesQuery "tea")
      (JsMap.values (nodeCache Samples.cached)) matching /\
    res_nodes result = Some (firstn 1 matching).
Proof.
  destruct (searchFacts_fallback mockRemote "tea"
              (Some {| sf_groupIds := None; sf_maxFacts := Some 5%Z;
                       sf_centerNodeUuid := None; sf_maxNodes := Some 1%Z |})
              Samples.cached eq_refl)
    as (Hrun & Hfacts & matching & Hsel & _ & Hmax & _).
  split; [exact Hrun | split; [exact Hfacts |]].
  exists matching. split; [exact Hsel |].
  apply (Hmax 1%Z); reflexivity.
Defined.

(** The options object of [searchFacts] reaches [fallbackSearch]: a
    [maxNodes] it carries limits the nodes returned. *)
Example searchFacts_fallback_reads_maxNodes :
  fst (searchFacts mockRemote "tea"
         (Some {| sf_groupIds := None; sf_maxFacts := Some 5%Z;
                  sf_centerNodeUuid := None; sf_maxNodes := Some 1%Z |})
         Samples.cached)
  = Returned {| res_nodes := Some [Samples.alice]; res_edges := None;
                res_facts := None; res_relevanceScore := half |}.
Proof. reflexivity. Qed.

(* ================================================================= *)
(** ** Remote search failures *)

(** C6: on a connected adapter, when the remote search call throws,
    [searchNodes] returns an empty [nodes] sequence with relevance 0 and
    [searchFacts] an empty [facts] sequence with relevance 0; neither
    throws. *)
Theorem search_remote_failure {casing : Casing} (invoke : Remote)
    (st : Adapter) :
  isConnected st = true ->
  (forall query options e,
     invoke (calls st)
       (search_memory_nodes query (optional options sn_groupIds)
          (num_or (optional options sn_maxNodes) (cfg_maxNodes (config st)))
          (optional options sn_entityType)
          (optional options sn_centerNodeUuid))
     = Thrown e ->
     fst (searchNodes invoke query options st)
     = Returned {| res_nodes := Some []; res_edges := None;
                   res_facts := None; res_relevanceScore := zero |}) /\
  (forall query options e,
     invoke (calls st)
       (search_memory_facts query (optional options sf_groupIds)
          (num_or (optional options sf_maxFacts) (cfg_maxFacts (config st)))
          (optional options sf_centerNodeUuid))
     = Thrown e ->
     fst (searchFacts invoke query options st)
     = Returned {| res_nodes := None; res_edges := None;
                   res_facts := Some []; res_relevanceScore := zero |}).
Proof.
  intros Hc. split; intros query options e He.
  - unfold searchNodes, callGraphitiTool. run_method.
    rewrite Hc. simpl. rewrite He. reflexivity.
  - unfold searchFacts, callGraphitiTool. run_method.
    rewrite Hc. simpl. rewrite He. reflexivity.
Qed.

Lemma search_remote_failure_witness :
  fst (searchNodes Samples.failingRemote "alice" None Samples.connected)
  = Returned {| res_nodes := Some []; res_edges := None;
                res_facts := None; res_relevanceScore := zero |} /\
  fst (searchFacts Samples.failingRemote "alice" None Samples.connected)
  = Returned {| res_nodes := None; res_edges := None;
                res_facts := Some []; res_relevanceScore := zero |}.
Proof.
  destruct (search_remote_failure Samples.failingRemote Samples.connected
              eq_refl) as [Hn Hf].
  split.
  - apply (Hn "alice" None "remote unavailable"). reflexivity.
  - apply (Hf "alice" None "remote unavailable"). reflexivity.
Defined.

(* ================================================================= *)
(** ** Temporal validity *)

(** C7: [updateFactValidity] returns normally and makes no remote
    invocation; when temporal tracking is disabled or the edge is not in
    the edge cache it leaves the whole state as it was, so it emits
    nothing; otherwise the cached edge gets [invalid = !isValid] and the
    given [validUntil], its other fields and every other cached edge stay
    as they were, and one [fact:updated] notification is emitted. *)
Theorem updateFactValidity_spec (edgeUuid : string) (isValid : bool)
    (validUntil : option Z) (st : Adapter) :
  let out := updateFactValidity edgeUuid isValid validUntil st in
  fst out = Returned tt /\
  calls (snd out) = calls st /\
  (flag (cfg_enableTemporalTracking (config st)) = false \/
   JsMap.get edgeUuid (edgeCache st) = None ->
   snd out = st) /\
  (forall edge,
     flag (cfg_enableTemporalTracking (config st)) = true ->
     JsMap.get edgeUuid (edgeCache st) = Some edge ->
     JsMap.get edgeUuid (edgeCache (snd out))
     = Some {| edge_uuid := edge_uuid edge;
               edge_from := edge_from edge;
               edge_to := edge_to edge;
               edge_relationType := edge_relationType edge;
               edge_groupId := edge_groupId edge;
               edge_createdAt := edge_createdAt edge;
               edge_invalid := Some (negb isValid);
               edge_validUntil := validUntil |} /\
     (forall other, other <> edgeUuid ->
        JsMap.get other (edgeCache (snd out))
        = JsMap.get other (edgeCache st)) /\
     JsMap.keys (edgeCache (snd out)) = JsMap.keys (edgeCache st) /\
     emitted (snd out)
     = emitted st ++ [ev_fact_updated edgeUuid isValid validUntil] /\
     nodeCache (snd out) = nodeCache st /\
     episodeQueue (snd out) = episodeQueue st /\
     isConnected (snd out) = isConnected st).
Proof.
  unfold updateFactValidity. run_method.
  destruct (flag (cfg_enableTemporalTracking (config st))) eqn:Ht; simpl.
  - destruct (JsMap.get edgeUuid (edgeCache st)) as [edge |] eqn:Hg; simpl.
    + split; [reflexivity | split; [reflexivity | split]].
      * intros [H | H]; discriminate.
      * intros cached _ Hc. injection Hc as <-.
        split; [apply get_set_same | split; [| split]].
        -- intros other Hne. now apply get_set_other.
        -- apply keys_set_bound.
           destruct (in_dec string_dec edgeUuid (JsMap.keys (edgeCache st)))
             as [Hin | Hout]; [exact Hin |].
           apply get_none_not_key in Hout. congruence.
        -- repeat split.
    + split; [reflexivity | split; [reflexivity | split]].
      * intros _. now destruct st.
      * intros edge _ H. discriminate.
  - split; [reflexivity | split; [reflexivity | split]].
    + intros _. now destruct st.
    + intros edge H. discriminate.
Qed.

(** [updateFactValidity] on a cached edge, evaluated. *)
Example updateFactValidity_cached :
  let out := updateFactValidity "e1" false (Some 99%Z)
               (with_edgeCache [("e1", Samples.knows)] Samples.connected) in
  edgeCache (snd out)
  = [("e1", {| edge_uuid := "e1"; edge_from := "u1"; edge_to := "u2";
               edge_relationType := "knows"; edge_groupId := "default";
               edge_createdAt := 0; edge_invalid := Some true;
               edge_validUntil := Some 99%Z |})] /\
  emitted (snd out)
  = [ev_connected; ev_fact_updated "e1" false (Some 99%Z)].
Proof. split; reflexivity. Qed.

(** The documented scenario: an unknown edge on a connected adapter. *)
Example updateFactValidity_unknown :
  updateFactValidity "nowhere" false None Samples.connected
  = (Returned tt, Samples.connected).
Proof. reflexivity. Qed.

(* ================================================================= *)
(** ** The sync pass *)

Lemma forOf_cons (A : Type) (x : A) (r : list A) (body : A -> M unit)
    (st : Adapter) :
  forOf (x :: r) body st
  = match body x st with
    | (Returned _, st') => forOf r body st'
    | (Thrown e, st') => (Thrown e, st')
    end.
Proof. reflexivity. Qed.

(** One delivery attempt of the sync pass: the remote call is made and a
    failure is swallowed. *)
Lemma syncEpisode_run (invoke : Remote) (ep : GraphitiEpisode)
    (st : Adapter) :
  let out := syncEpisode invoke ep st in
  fst out = Returned tt /\
  calls (snd out) = calls st ++ [flushCall ep] /\
  episodeQueue (snd out) = episodeQueue st /\
  unchanged st (snd out).
Proof.
  unfold syncEpisode, tryCatch.
  pose proof (flushEpisode_run invoke ep st) as H. simpl in H.
  destruct H as (_ & Hc & Hq & Hu).
  destruct (flushEpisode invoke ep st) as [[[] | e] st1]; simpl in *.
  - auto 10.
  - split; [reflexivity | split; [exact Hc | split; [exact Hq |]]].
    eapply unchanged_trans; [exact Hu |].
    unfold unchanged. simpl. repeat split.
Qed.

(** The inner loop of [syncWithGraphiti]: every episode of the group is
    attempted, first to last, whatever the earlier attempts did. *)
Lemma sync_episodes_run (invoke : Remote) (episodes : list GraphitiEpisode) :
  forall st,
    let out := forOf episodes (syncEpisode invoke) st in
    fst out = Returned tt /\
    calls (snd out) = calls st ++ map flushCall episodes /\
    episodeQueue (snd out) = episodeQueue st /\
    unchanged st (snd out).
Proof.
  cbv zeta. induction episodes as [|ep r IH]; intros st.
  - simpl. rewrite app_nil_r. auto using unchanged_refl.
  - rewrite forOf_cons.
    pose proof (syncEpisode_run invoke ep st) as H. cbv zeta in H.
    destruct (syncEpisode invoke ep st) as [res st1]. simpl in H.
    destruct H as (-> & Hc & Hq & Hu).
    destruct (IH st1) as (Hr & Hc' & Hq' & Hu').
    rewrite Hr, Hc', Hc, Hq', Hq, <- app_assoc.
    simpl. eauto using unchanged_trans.
Qed.

Lemma syncGroup_run (invoke : Remote) (g : string)
    (eps : list GraphitiEpisode) (st : Adapter) :
  let out := syncGroup invoke (g, eps) st in
  fst out = Returned tt /\
  calls (snd out) = calls st ++ map flushCall eps /\
  episodeQueue (snd out) = JsMap.set g [] (episodeQueue st) /\
  unchanged st (snd out).
Proof.
  unfold syncGroup, bind.
  pose proof (sync_episodes_run invoke eps st) as H. cbv zeta in H.
  destruct (forOf eps _ st) as [res st1]. simpl in H.
  destruct H as (-> & Hc & Hq & Hu).
  unfold update. simpl. rewrite Hc, Hq.
  split; [reflexivity | split; [reflexivity | split; [reflexivity |]]].
  eapply unchanged_trans; [exact Hu |].
  unfold unchanged. simpl. repeat split.
Qed.

(** The outer loop: group after group. *)
Lemma sync_groups_run (invoke : Remote)
    (groups : list (string * list GraphitiEpisode)) :
  forall st,
    let out := forOf groups (syncGroup invoke) st in
    fst out = Returned tt /\
    calls (snd out) = calls st ++ attempts groups /\
    episodeQueue (snd out)
    = fold_left (fun q entry => JsMap.set (fst entry) [] q) groups
        (episodeQueue st) /\
    unchanged st (snd out).
Proof.
  cbv zeta. induction groups as [|[g eps] r IH]; intros st.
  - simpl. rewrite app_nil_r. auto using unchanged_refl.
  - rewrite forOf_cons.
    pose proof (syncGroup_run invoke g eps st) as H. cbv zeta in H.
    destruct (syncGroup invoke (g, eps) st) as [res st1]. simpl in H.
    destruct H as (-> & Hc & Hq & Hu).
    destruct (IH st1) as (Hr & Hc' & Hq' & Hu').
    rewrite Hr, Hc', Hc, Hq', Hq, <- app_assoc.
    simpl. eauto using unchanged_trans.
Qed.

Lemma set_bound_in_place (V : Type) (k : string) (v v0 : V)
    (a b : JsMap.t V) :
  ~ In k (JsMap.keys a) ->
  JsMap.set k v (a ++ (k, v0) :: b) = a ++ (k, v) :: b.
Proof.
  induction a as [|[k' v'] a IH]; simpl; intros H.
  - now rewrite String.eqb_refl.
  - destruct (String.eqb k k') eqn:E.
    + apply String.eqb_eq in E. subst. tauto.
    + f_equal. apply IH. tauto.
Qed.

Lemma keys_emptied (q : JsMap.t (list GraphitiEpisode)) :
  JsMap.keys (emptied q) = JsMap.keys q.
Proof. unfold JsMap.keys, emptied. rewrite map_map. reflexivity. Qed.

(** Overwriting each group of a [Map] in turn empties every queue and
    keeps the groups and their order. *)
Lemma reset_all_groups (rest done : JsMap.t (list GraphitiEpisode)) :
  JsMap.wf (done ++ rest) ->
  fold_left (fun q entry => JsMap.set (fst entry) [] q) rest
    (emptied done ++ rest)
  = emptied (done ++ rest).
Proof.
  revert done. induction rest as [|[g eps] r IH]; intros done Hwf; simpl.
  - now rewrite !app_nil_r.
  - rewrite set_bound_in_place.
    + replace (emptied done ++ (g, []) :: r)
        with (emptied (done ++ [(g, eps)]) ++ r)
        by (unfold emptied; rewrite map_app, <- app_assoc; reflexivity).
      rewrite IH; rewrite <- app_assoc; [reflexivity | exact Hwf].
    + rewrite keys_emptied. unfold JsMap.wf, JsMap.keys in *.
      rewrite map_app in Hwf. simpl in Hwf.
      apply NoDup_remove_2 in Hwf. intros Hin. apply Hwf.
      apply in_or_app. now left.
Qed.

(** [syncWithGraphiti] on any adapter and any remote service. *)
Lemma syncWithGraphiti_run (invoke : Remote) (st : Adapter) :
  let out := syncWithGraphiti invoke st in
  fst out = Returned tt /\
  calls (snd out) = calls st ++ attempts (episodeQueue st) /\
  episodeQueue (snd out)
  = fold_left (fun q entry => JsMap.set (fst entry) [] q) (episodeQueue st)
      (episodeQueue st) /\
  emitted (snd out) = emitted st ++ [ev_sync_completed (clock st)] /\
  config (snd out) = config st /\
  isConnected (snd out) = isConnected st /\
  syncTimer (snd out) = syncTimer st /\
  nodeCache (snd out) = nodeCache st /\
  edgeCache (snd out) = edgeCache st /\
  probes (snd out) = probes st /\
  ids (snd out) = ids st /\
  clock (snd out) = clock st /\
  startup (snd out) = startup st.
Proof.
  unfold syncWithGraphiti, JsMap.entries.
  unfold bind, this.
  pose proof (sync_groups_run invoke (episodeQueue st) st) as H. cbv zeta in H.
  destruct (forOf (episodeQueue st) _ st) as [res st1]. simpl in H.
  destruct H as (-> & Hc & Hq & Hu).
  run_method.
  unfold unchanged in Hu.
  destruct Hu as (? & ? & ? & ? & ? & He & ? & ? & Hk & ?).
  rewrite He, Hk. repeat split; assumption.
Qed.

Lemma attempts_of_group (q : JsMap.t (list GraphitiEpisode)) (g : string)
    (queue : list GraphitiEpisode) :
  In (g, queue) q ->
  exists before after,
    attempts q = before ++ map flushCall queue ++ after.
Proof.
  intros Hin. apply in_split in Hin. destruct Hin as (l1 & l2 & ->).
  exists (attempts l1), (attempts l2).
  unfold attempts. rewrite flat_map_app. reflexivity.
Qed.

Lemma get_emptied (q : JsMap.t (list GraphitiEpisode)) (g : string) :
  In g (JsMap.keys q) -> JsMap.get g (emptied q) = Some [].
Proof.
  induction q as [|[k v] r IH]; simpl; intros H; [contradiction |].
  destruct (String.eqb g k) eqn:E; [reflexivity |].
  apply String.eqb_neq in E. destruct H as [H | H]; [congruence | auto].
Qed.

(** C4: a sync pass returns normally whatever the remote service does;
    it attempts the delivery of every queued episode, group after group
    and, within a group, in the order of the queue, which is the order in
    which [addMemory] appended them; a delivery that throws stops nothing;
    afterwards every group's queue is empty, so an episode whose delivery
    failed is gone, and one [sync:completed] event has been emitted. *)
Theorem syncWithGraphiti_spec (invoke : Remote) (generateId : nat -> string)
    (st : Adapter) :
  JsMap.wf (episodeQueue st) ->
  let out := syncWithGraphiti invoke st in
  (forall name content options,
     let episode := newEpisode generateId name content options st in
     JsMap.get (ep_groupId episode)
       (episodeQueue
          (snd (addMemory invoke generateId name content options st)))
     = Some (match JsMap.get (ep_groupId episode) (episodeQueue st) with
             | Some q => q
             | None => []
             end ++ [episode])) /\
  fst out = Returned tt /\
  calls (snd out) = calls st ++ attempts (episodeQueue st) /\
  (forall g queue,
     In (g, queue) (episodeQueue st) ->
     exists before after,
       attempts (episodeQueue st)
       = before ++ map flushCall queue ++ after) /\
  episodeQueue (snd out) = emptied (episodeQueue st) /\
  (forall g,
     In g (JsMap.keys (episodeQueue st)) ->
     JsMap.get g (episodeQueue (snd out)) = Some []) /\
  emitted (snd out) = emitted st ++ [ev_sync_completed (clock st)].
Proof.
  intros Hwf out.
  destruct (syncWithGraphiti_run invoke st)
    as (Hr & Hc & Hq & He & _).
  fold out in Hr, Hc, Hq, He.
  assert (Hq' : episodeQueue (snd out) = emptied (episodeQueue st)).
  { rewrite Hq. apply (reset_all_groups (episodeQueue st) []). exact Hwf. }
  split; [| split; [| split; [| split; [| split; [| split]]]]]; auto.
  - intros name content options. apply addMemory_enqueues.
  - intros g queue. apply attempts_of_group.
  - intros g Hin. rewrite Hq'. now apply get_emptied.
Qed.

Lemma syncWithGraphiti_spec_witness :
  let out := syncWithGraphiti Samples.failingRemote Samples.buffered in
  fst out = Returned tt /\
  calls (snd out)
  = [add_memory "a" "x" src_text None "g1" "0";
     add_memory "c" "z" src_text None "g1" "2";
     add_memory "b" "y" src_json None "g2" "1"] /\
  episodeQueue (snd out) = [("g1", []); ("g2", [])] /\
  emitted (snd out)
  = emitted Samples.buffered ++ [ev_sync_completed 0].
Proof.
  assert (Hwf : JsMap.wf (episodeQueue Samples.buffered)).
  { unfold JsMap.wf. simpl. repeat constructor; simpl.
    - intros [H | []]. discriminate.
    - intros []. }
  destruct (syncWithGraphiti_spec Samples.failingRemote Samples.ids
              Samples.buffered Hwf)
    as (_ & Hr & Hc & _ & Hq & _ & He).
  repeat split; assumption.
Defined.

(* ================================================================= *)
(** ** Statistics and teardown *)

Lemma queue_count_sum (q : JsMap.t (list GraphitiEpisode)) (acc : nat) :
  fold_left (fun sum queue => sum + List.length queue) (JsMap.values q) acc
  = acc + sumOfQueueLengths q.
Proof.
  unfold JsMap.values, sumOfQueueLengths. revert acc.
  induction q as [|[g eps] r IH]; intros acc; simpl.
  - lia.
  - rewrite IH. lia.
Qed.

(** C8: on every adapter, [destroy] returns normally and
    [getStatistics] afterwards reports no node, no edge, an empty cache,
    no queued episode and [isConnected = false]; and on every adapter the
    [queuedEpisodes] that [getStatistics] reports is the sum of the
    lengths of all groups' queues. *)
Theorem destroy_then_getStatistics (invoke : Remote) (st : Adapter) :
  fst (destroy invoke st) = Returned tt /\
  getStatistics (snd (destroy invoke st))
  = {| totalNodes := 0; totalEdges := 0; queuedEpisodes := 0;
       cacheSize := 0; stat_isConnected := false |} /\
  queuedEpisodes (getStatistics st) = sumOfQueueLengths (episodeQueue st).
Proof.
  split; [| split].
  - unfold destroy, bind, update at 1.
    destruct (syncWithGraphiti_run invoke (with_syncTimer None st))
      as (Hr & _).
    destruct (syncWithGraphiti invoke (with_syncTimer None st))
      as [res st1]. simpl in Hr. subst res. reflexivity.
  - unfold destroy, bind, update at 1.
    destruct (syncWithGraphiti_run invoke (with_syncTimer None st))
      as (Hr & _).
    destruct (syncWithGraphiti invoke (with_syncTimer None st))
      as [res st1]. simpl in Hr. subst res. reflexivity.
  - unfold getStatistics. simpl. now rewrite queue_count_sum.
Qed.

Arguments resumeStartup : simpl never.

Lemma destroy_effect (invoke : Remote) (st : Adapter) :
  let out := destroy invoke st in
  fst out = Returned tt /\
  calls (snd out) = calls st ++ attempts (episodeQueue st) /\
  emitted (snd out)
  = emitted st ++ [ev_sync_completed (clock st); ev_destroyed] /\
  isConnected (snd out) = false /\
  syncTimer (snd out) = None /\
  episodeQueue (snd out) = [] /\
  nodeCache (snd out) = [] /\
  edgeCache (snd out) = [] /\
  config (snd out) = config st /\
  probes (snd out) = probes st /\
  ids (snd out) = ids st /\
  startup (snd out) = startup st.
Proof.
  cbv zeta. unfold destroy, bind, update, emit. cbv beta iota.
  pose proof (syncWithGraphiti_run invoke (with_syncTimer None st)) as H.
  cbv zeta in H.
  destruct (syncWithGraphiti invoke (with_syncTimer None st)) as [res st1].
  simpl in H.
  destruct H as (Hr & Hc & _ & He & Hcfg & _ & Hs & _ & _ & Hp & Hi & _ & Hst).
  subst res. simpl.
  rewrite Hc, He, Hcfg, Hs, Hp, Hi, Hst, <- app_assoc. repeat split.
Qed.

(* ================================================================= *)
(** ** [destroy] and the pending start-up *)

Lemma pause_settled (st : Adapter) :
  startup st = None -> pause st = (Returned tt, st).
Proof.
  intros H. unfold pause, resumeStartup, bind, this. cbv beta iota.
  now rewrite H.
Qed.

Lemma awaited_callGraphitiTool_settled (invoke : Remote) (c : ToolCall)
    (st : Adapter) :
  startup st = None ->
  awaited_callGraphitiTool invoke c st = callGraphitiTool invoke c st.
Proof.
  intros H. unfold awaited_callGraphitiTool, callGraphitiTool, bind, log,
    update. cbv beta iota.
  now rewrite pause_settled by exact H.
Qed.

Lemma awaited_syncEpisode_settled (invoke : Remote) (ep : GraphitiEpisode)
    (st : Adapter) :
  startup st = None ->
  awaited_syncEpisode invoke ep st = syncEpisode invoke ep st.
Proof.
  intros H.
  unfold awaited_syncEpisode, syncEpisode, awaited_flushEpisode,
    flushEpisode, tryCatch, bind.
  now rewrite awaited_callGraphitiTool_settled by exact H.
Qed.

(** Two loop bodies that agree while no start-up is pending give the same
    loop. *)
Lemma forOf_settled {A : Type} (body body' : A -> M unit) (xs : list A) :
  (forall x st, startup st = None -> body x st = body' x st) ->
  (forall x st, startup st = None -> startup (snd (body' x st)) = None) ->
  forall st, startup st = None -> forOf xs body st = forOf xs body' st.
Proof.
  intros Hsame Hkeep. induction xs as [|x r IH]; intros st H.
  - reflexivity.
  - rewrite !forOf_cons, Hsame by exact H.
    pose proof (Hkeep x st H) as H1.
    destruct (body' x st) as [[[] | e] st1]; [| reflexivity].
    apply IH. exact H1.
Qed.

Lemma syncEpisode_keeps_startup (invoke : Remote) (ep : GraphitiEpisode)
    (st : Adapter) :
  startup (snd (syncEpisode invoke ep st)) = startup st.
Proof.
  destruct (syncEpisode_run invoke ep st) as (_ & _ & _ & Hu).
  unfold unchanged in Hu. tauto.
Qed.

Lemma syncGroup_keeps_startup (invoke : Remote)
    (entry : string * list GraphitiEpisode) (st : Adapter) :
  startup (snd (syncGroup invoke entry st)) = startup st.
Proof.
  destruct entry as [g eps].
  destruct (syncGroup_run invoke g eps st) as (_ & _ & _ & Hu).
  unfold unchanged in Hu. tauto.
Qed.

Lemma awaited_syncGroup_settled (invoke : Remote)
    (entry : string * list GraphitiEpisode) (st : Adapter) :
  startup st = None ->
  awaited_syncGroup invoke entry st = syncGroup invoke entry st.
Proof.
  intros H. destruct entry as [g eps].
  unfold awaited_syncGroup, syncGroup, bind.
  rewrite (forOf_settled (awaited_syncEpisode invoke) (syncEpisode invoke));
    [reflexivity | | | exact H].
  - intros x st0. apply awaited_syncEpisode_settled.
  - intros x st0 H0. now rewrite syncEpisode_keeps_startup.
Qed.

Lemma awaited_syncWithGraphiti_settled (invoke : Remote) (st : Adapter) :
  startup st = None ->
  awaited_syncWithGraphiti invoke st = syncWithGraphiti invoke st.
Proof.
  intros H. unfold awaited_syncWithGraphiti, syncWithGraphiti, bind, this.
  rewrite (forOf_settled (awaited_syncGroup invoke) (syncGroup invoke));
    [reflexivity | | | exact H].
  - intros x st0. apply awaited_syncGroup_settled.
  - intros x st0 H0. now rewrite syncGroup_keeps_startup.
Qed.

(** With no start-up pending, [destroy] is not interrupted. *)
Lemma awaited_destroy_settled (invoke : Remote) (st : Adapter) :
  startup st = None ->
  awaited_destroy invoke st = destroy invoke st.
Proof.
  intros H. unfold awaited_destroy, destroy, bind.
  cbv beta iota delta [update].
  rewrite awaited_syncWithGraphiti_settled by exact H.
  destruct (syncWithGraphiti_run invoke (with_syncTimer None st))
    as (_ & _ & _ & _ & _ & _ & _ & _ & _ & _ & _ & _ & Hs).
  destruct (syncWithGraphiti invoke (with_syncTimer None st))
    as [[[] | e] st1]; [| reflexivity].
  simpl in Hs. rewrite pause_settled by (rewrite Hs; exact H).
  reflexivity.
Qed.

(** A loop whose body always returns and keeps a property of the adapter
    returns and keeps it. *)
Lemma forOf_keeps {A : Type} (P : Adapter -> Prop) (body : A -> M unit)
    (xs : list A) :
  (forall x st, P st ->
     fst (body x st) = Returned tt /\ P (snd (body x st))) ->
  forall st, P st ->
    fst (forOf xs body st) = Returned tt /\ P (snd (forOf xs body st)).
Proof.
  intros Hbody. induction xs as [|x r IH]; intros st H.
  - split; [reflexivity | exact H].
  - rewrite forOf_cons. destruct (Hbody x st H) as [Hr HP].
    destruct (body x st) as [res st1]. simpl in Hr, HP. subst res.
    now apply IH.
Qed.

Lemma awaited_syncEpisode_keeps_ids (invoke : Remote) (n : nat)
    (ep : GraphitiEpisode) (st : Adapter) :
  ids st = n ->
  fst (awaited_syncEpisode invoke ep st) = Returned tt /\
  ids (snd (awaited_syncEpisode invoke ep st)) = n.
Proof.
  intros H.
  unfold awaited_syncEpisode, awaited_flushEpisode,
    awaited_callGraphitiTool, pause, tryCatch, bind, log, update, throw, ret.
  cbv beta iota.
  set (st1 := with_logged _ st).
  destruct (resumeStartup_effect st1) as (Hr & _ & _ & _ & _ & Hi & _).
  destruct (resumeStartup st1) as [res st2]. simpl in Hr, Hi. subst res.
  cbv beta iota.
  destruct (invoke (calls st2) (flushCall ep)); simpl; rewrite Hi;
    split; auto.
Qed.

Lemma awaited_syncWithGraphiti_keeps_ids (invoke : Remote) (st : Adapter) :
  fst (awaited_syncWithGraphiti invoke st) = Returned tt /\
  ids (snd (awaited_syncWithGraphiti invoke st)) = ids st.
Proof.
  unfold awaited_syncWithGraphiti, bind, this. cbv beta iota.
  destruct (forOf_keeps (fun st' => ids st' = ids st)
              (awaited_syncGroup invoke)
              (JsMap.entries (episodeQueue st))) with (st := st)
    as [Hr Hi]; [| reflexivity |].
  - intros [g eps] st0 H0. unfold awaited_syncGroup, bind.
    destruct (forOf_keeps (fun st' => ids st' = ids st)
                (awaited_syncEpisode invoke) eps) with (st := st0)
      as [Hr Hi]; [| exact H0 |].
    + intros ep st1 H1. now apply awaited_syncEpisode_keeps_ids.
    + destruct (forOf eps _ st0) as [res st1]. simpl in Hr, Hi. subst res.
      simpl. auto.
  - destruct (forOf _ _ st) as [res st1]. simpl in Hr, Hi. subst res.
    simpl. auto.
Qed.

(** What [destroy] leaves behind whether or not a start-up was pending:
    it returns, the buffer and the caches are empty, the adapter is not
    connected and no start-up is pending any more. *)
Lemma awaited_destroy_effect (invoke : Remote) (st : Adapter) :
  let out := awaited_destroy invoke st in
  fst out = Returned tt /\
  episodeQueue (snd out) = [] /\
  nodeCache (snd out) = [] /\
  edgeCache (snd out) = [] /\
  ids (snd out) = ids st /\
  isConnected (snd out) = false /\
  startup (snd out) = None.
Proof.
  cbv zeta. unfold awaited_destroy, pause, bind.
  cbv beta iota delta [update].
  destruct (awaited_syncWithGraphiti_keeps_ids invoke (with_syncTimer None st))
    as [Hr Hi].
  destruct (awaited_syncWithGraphiti invoke (with_syncTimer None st))
    as [res st1]. simpl in Hr, Hi. subst res.
  destruct (resumeStartup_effect st1) as (Hr & _ & _ & _ & _ & Hi' & _ & _ & Hs & _).
  destruct (resumeStartup st1) as [res st2]. simpl in Hr, Hi', Hs. subst res.
  simpl. rewrite Hi', Hi, Hs. repeat split.
Qed.

(** Also when the start-up resumes inside it, [destroy] leaves an
    adapter whose statistics are all zero and that is not connected. *)
Lemma awaited_destroy_then_getStatistics (invoke : Remote) (st : Adapter) :
  getStatistics (snd (awaited_destroy invoke st))
  = {| totalNodes := 0; totalEdges := 0; queuedEpisodes := 0;
       cacheSize := 0; stat_isConnected := false |}.
Proof.
  destruct (awaited_destroy_effect invoke st)
    as (_ & Hq & Hn & He & _ & Hc & _).
  unfold getStatistics. now rewrite Hq, Hn, He, Hc.
Qed.

(* ================================================================= *)
(** ** The lifetime of an adapter *)

Lemma fold_reset_wf (groups q : JsMap.t (list GraphitiEpisode)) :
  JsMap.wf q ->
  JsMap.wf (fold_left (fun q entry => JsMap.set (fst entry) [] q) groups q).
Proof.
  revert q. induction groups as [|[g eps] r IH]; intros q Hwf; simpl; auto.
  apply IH. now apply set_preserves_wf.
Qed.

(** Every operation keeps the write buffer a [Map]: one queue per
    group. *)
Lemma step_preserves_wf {casing : Casing} (invoke : Remote)
    (generateId : nat -> string)
    (st : Adapter) (op : Op) :
  JsMap.wf (episodeQueue st) ->
  JsMap.wf (episodeQueue (step invoke generateId st op)).
Proof.
  intros Hwf.
  assert (Hadd : forall n c o,
            JsMap.wf (episodeQueue
                        (snd (addMemory invoke generateId n c o st)))).
  { intros n c o. rewrite addMemory_run. cbv zeta.
    set (ep := newEpisode generateId n c o st).
    set (st1 := with_episodeQueue _ _).
    assert (H1 : JsMap.wf (episodeQueue st1))
      by (subst st1; simpl; now apply set_preserves_wf).
    destruct (isConnected st); [| exact H1].
    pose proof (flushEpisode_run invoke ep st1) as H. cbv zeta in H.
    destruct H as (_ & _ & Hq & _).
    destruct (flushEpisode invoke ep st1) as [[[] | e] st2]; simpl in *;
      now rewrite Hq. }
  destruct op; simpl; try exact Hwf; try apply Hadd.
  - unfold searchNodes, callGraphitiTool. run_method. branch; exact Hwf.
  - unfold searchFacts, callGraphitiTool. run_method. branch; exact Hwf.
  - rewrite fromMemoryEntry_run.
    destruct (me_json entry); [apply Hadd | exact Hwf].
  - unfold getRecentEpisodes, callGraphitiTool. run_method. branch; exact Hwf.
  - unfold clearGraph, callGraphitiTool. run_method.
    branch; try exact Hwf; constructor.
  - unfold updateFactValidity. run_method. branch; exact Hwf.
  - unfold shareWithHiveMind. run_method. branch; exact Hwf.
  - unfold tick, bind, this. destruct (syncTimer st); [| exact Hwf].
    destruct (syncWithGraphiti_run invoke st) as (_ & _ & Hq & _).
    rewrite Hq. now apply fold_reset_wf.
  - destruct (awaited_destroy_effect invoke st) as (_ & Hq & _).
    rewrite Hq. constructor.
  - destruct (resumeStartup_effect st) as (_ & Hq & _). now rewrite Hq.
Qed.

(** The buffer of an adapter is a [Map] at every moment of its life. *)
Lemma run_preserves_wf {casing : Casing} (invoke : Remote)
    (generateId : nat -> string)
    (ops : list Op) :
  forall st,
    JsMap.wf (episodeQueue st) ->
    JsMap.wf (episodeQueue (run invoke generateId st ops)).
Proof.
  induction ops as [|op r IH]; intros st Hwf; simpl; auto.
  apply IH. now apply step_preserves_wf.
Qed.

(** A disabled adapter that is not connected answers every search from
    its cache and leaves the remote service alone when it buffers a
    write. *)
Lemma disconnected_methods {casing : Casing} (invoke : Remote)
    (generateId : nat -> string)
    (st : Adapter) :
  isConnected st = false ->
  (forall query options,
     searchNodes invoke query options st
     = (Returned (fallbackSearch query (optional options sn_maxNodes) st),
        st)) /\
  (forall query options,
     searchFacts invoke query options st
     = (Returned (fallbackSearch query (optional options sf_maxNodes) st),
        st)) /\
  (forall name content options,
     calls (snd (addMemory invoke generateId name content options st))
     = calls st).
Proof.
  intros Hd. split; [| split].
  - intros query options. unfold searchNodes. run_method. now rewrite Hd.
  - intros query options. unfold searchFacts. run_method. now rewrite Hd.
  - intros name content options. rewrite addMemory_run. cbv zeta.
    now rewrite Hd.
Qed.

(** No operation wakes a dormant adapter. *)
Lemma step_dormant {casing : Casing} (invoke : Remote)
    (generateId : nat -> string)
    (st : Adapter) (op : Op) :
  dormant st -> dormant (step invoke generateId st op).
Proof.
  intros Hd.
  assert (Hc : isConnected st = false) by apply Hd.
  assert (Ht : syncTimer st = None) by apply Hd.
  assert (Hadd : forall n c o,
            dormant (snd (addMemory invoke generateId n c o st))).
  { intros n c o. rewrite addMemory_run. cbv zeta. rewrite Hc.
    dormancy. }
  destruct op; simpl; try exact Hd; try apply Hadd.
  - unfold searchNodes. run_method. rewrite Hc. exact Hd.
  - unfold searchFacts. run_method. rewrite Hc. exact Hd.
  - rewrite fromMemoryEntry_run.
    destruct (me_json entry); [apply Hadd | exact Hd].
  - unfold getRecentEpisodes. run_method. rewrite Hc. exact Hd.
  - unfold clearGraph. run_method. rewrite Hc. dormancy.
  - unfold updateFactValidity. run_method. branch; dormancy.
  - unfold shareWithHiveMind. run_method. branch; dormancy.
  - unfold tick, bind, this. rewrite Ht. exact Hd.
  - rewrite awaited_destroy_settled by apply Hd.
    unfold destroy, bind, update at 1.
    pose proof (syncWithGraphiti_run invoke (with_syncTimer None st)) as H.
    cbv zeta in H.
    destruct H as (Hr & _ & _ & He & _ & _ & Hs & _ & _ & Hp & _ & _ & Hst).
    destruct (syncWithGraphiti invoke (with_syncTimer None st))
      as [res st1]. simpl in Hr, He, Hs, Hp, Hst. subst res.
    unfold dormant in *. run_method. rewrite He, Hs, Hp, Hst.
    dormancy.
  - destruct (resumeStartup_effect st)
      as (_ & _ & _ & _ & _ & _ & _ & _ & _ & Hsame).
    rewrite Hsame; [exact Hd | apply Hd].
Qed.

Lemma run_dormant {casing : Casing} (invoke : Remote)
    (generateId : nat -> string)
    (ops : list Op) :
  forall st, dormant st -> dormant (run invoke generateId st ops).
Proof.
  induction ops as [|op r IH]; intros st Hd; simpl; auto.
  apply IH. now apply step_dormant.
Qed.

(** C10: an adapter constructed with [enabled = false] never runs the
    availability probe and emits nothing at start-up; after any sequence
    of operations it still has not probed, has emitted no [connected],
    [fallback] or [error] event and is not connected, so [searchNodes] and
    [searchFacts] return the fallback search of the cache and [addMemory]
    makes no remote call. *)
Theorem disabled_adapter_stays_dormant {casing : Casing} (invoke : Remote)
    (generateId : nat -> string) (probe : Result bool)
    (cfg : ConfigObject) (now : Z) (ops : list Op) :
  cfg_enabled (mergeConfig cfg) = false ->
  let born := construct probe cfg now in
  let st := run invoke generateId born ops in
  probes born = 0 /\
  emitted born = [] /\
  probes st = 0 /\
  Forall (fun ev => ~ startupEvent ev) (emitted st) /\
  isConnected st = false /\
  (forall query options,
     searchNodes invoke query options st
     = (Returned (fallbackSearch query (optional options sn_maxNodes) st),
        st)) /\
  (forall query options,
     searchFacts invoke query options st
     = (Returned (fallbackSearch query (optional options sf_maxNodes) st),
        st)) /\
  (forall name content options,
     calls (snd (addMemory invoke generateId name content options st))
     = calls st).
Proof.
  intros Hoff born st. simpl in Hoff.
  assert (Hborn : dormant born).
  { subst born. unfold construct. simpl. rewrite Hoff.
    unfold dormant. simpl. repeat split. constructor. }
  assert (Hst : dormant st) by (subst st; now apply run_dormant).
  split; [| split].
  - subst born. unfold construct. simpl. now rewrite Hoff.
  - subst born. unfold construct. simpl. now rewrite Hoff.
  - destruct Hst as (Hc & _ & Hp & Hq & _).
    split; [exact Hp | split; [exact Hq | split; [exact Hc |]]].
    now apply disconnected_methods.
Qed.

Lemma disabled_adapter_stays_dormant_witness :
  let born := construct (Returned true) Samples.disabled 0 in
  let st :=
    run Samples.failingRemote Samples.ids born
      [op_addMemory "n1" "c1" None; op_startupResumes;
       op_searchNodes "c1" None;
       op_timerFires; op_destroy; op_addMemory "n2" "c2" None] in
  probes born = 0 /\
  emitted born = [] /\
  probes st = 0 /\
  Forall (fun ev => ~ startupEvent ev) (emitted st) /\
  isConnected st = false /\
  (forall query options,
     searchNodes Samples.failingRemote query options st
     = (Returned (fallbackSearch query (optional options sn_maxNodes) st),
        st)) /\
  (forall query options,
     searchFacts Samples.failingRemote query options st
     = (Returned (fallbackSearch query (optional options sf_maxNodes) st),
        st)) /\
  (forall name content options,
     calls (snd (addMemory Samples.failingRemote Samples.ids
                   name content options st))
     = calls st).
Proof.
  apply (disabled_adapter_stays_dormant Samples.failingRemote Samples.ids
           (Returned true) Samples.disabled 0).
  reflexivity.
Defined.

(* ================================================================= *)
(** ** What each operation changes *)

(** Everything [addMemory] does, on any adapter and any remote. *)
Lemma addMemory_effect (invoke : Remote) (generateId : nat -> string)
    (name content : string) (options : option AddMemoryOptions)
    (st : Adapter) :
  let episode := newEpisode generateId name content options st in
  let before :=
    match JsMap.get (ep_groupId episode) (episodeQueue st) with
    | Some q => q
    | None => []
    end in
  let out := addMemory invoke generateId name content options st in
  unchanged (with_emitted (emitted (snd out)) (with_ids (ids (snd out)) st))
    (snd out) /\
  ids (snd out) = S (ids st) /\
  episodeQueue (snd out)
  = JsMap.set (ep_groupId episode) (before ++ [episode]) (episodeQueue st) /\
  calls (snd out)
  = (if isConnected st then calls st ++ [flushCall episode] else calls st) /\
  ((fst out = Returned (ep_uuid episode) /\
    emitted (snd out) = emitted st ++ [ev_memory_added episode]) \/
   (exists e,
      fst out = Thrown e /\
      emitted (snd out) = emitted st /\
      isConnected st = true /\
      invoke (calls st) (flushCall episode) = Thrown e)).
Proof.
  intros episode before out. subst out. rewrite addMemory_run.
  fold episode. fold before. cbv zeta.
  set (st1 := with_episodeQueue _ _).
  destruct (isConnected st) eqn:Hc.
  - pose proof (flushEpisode_run invoke episode st1) as H. cbv zeta in H.
    destruct H as (Hr & Hcalls & Hq & Hu).
    change (calls st1) with (calls st) in Hr, Hcalls.
    destruct (flushEpisode invoke episode st1) as [res st2]. simpl in *.
    unfold unchanged in Hu. simpl in Hu.
    destruct Hu as (H1 & H2 & H3 & H4 & H5 & H6 & H7 & H8 & H9 & H10).
    destruct (invoke (calls st) (flushCall episode)) as [r | e] eqn:Hi;
      subst res; simpl; unfold unchanged; simpl;
      rewrite ?H1, ?H2, ?H3, ?H4, ?H5, ?H6, ?H7, ?H8, ?H9, ?H10, ?Hq,
        ?Hcalls.
    + split; [repeat split | split; [| split; [| split]]]; auto.
    + split; [repeat split | split; [| split; [| split]]]; auto.
      right. exists e. auto.
  - simpl. unfold unchanged. simpl. repeat split; auto.
Qed.

(** Apart from [destroy] and the resumption of the start-up, no
    operation touches the connectivity flag, the sync timer, the
    configuration, the probe count or the pending start-up. *)
Lemma step_frame {casing : Casing} (invoke : Remote)
    (generateId : nat -> string) (st : Adapter) (op : Op) :
  isDestroy op = false ->
  isResume op = false ->
  isConnected (step invoke generateId st op) = isConnected st /\
  syncTimer (step invoke generateId st op) = syncTimer st /\
  config (step invoke generateId st op) = config st /\
  probes (step invoke generateId st op) = probes st /\
  startup (step invoke generateId st op) = startup st.
Proof.
  intros Hop Hres.
  assert (Hadd : forall n c o,
            let st' := snd (addMemory invoke generateId n c o st) in
            isConnected st' = isConnected st /\
            syncTimer st' = syncTimer st /\
            config st' = config st /\
            probes st' = probes st /\
            startup st' = startup st).
  { intros n c o.
    destruct (addMemory_effect invoke generateId n c o st) as (Hu & _).
    unfold unchanged in Hu. simpl in Hu. cbv zeta. tauto. }
  destruct op; simpl in *; try discriminate; try apply Hadd;
    try (repeat split; reflexivity).
  - unfold searchNodes, callGraphitiTool. run_method. branch; auto.
  - unfold searchFacts, callGraphitiTool. run_method. branch; auto.
  - rewrite fromMemoryEntry_run.
    destruct (me_json entry); [apply Hadd | repeat split].
  - unfold getRecentEpisodes, callGraphitiTool. run_method.
    branch; auto.
  - unfold clearGraph, callGraphitiTool. run_method. branch; auto.
  - unfold updateFactValidity. run_method. branch; auto.
  - unfold shareWithHiveMind. run_method. branch; auto.
  - unfold tick, bind, this. destruct (syncTimer st) eqn:Ht.
    + destruct (syncWithGraphiti_run invoke st)
        as (_ & _ & _ & _ & H1 & H2 & H3 & _ & _ & H4 & _ & _ & H5).
      rewrite H1, H2, H3, H4, H5, Ht. repeat split.
    + simpl. rewrite Ht. repeat split.
Qed.

(* ================================================================= *)
(** ** Connectivity over the adapter's life *)

(** Nothing starts a start-up again. *)
Lemma step_keeps_started {casing : Casing} (invoke : Remote)
    (generateId : nat -> string) (st : Adapter) (op : Op) :
  startup st = None -> startup (step invoke generateId st op) = None.
Proof.
  intros Hs. destruct (isDestroy op) eqn:Hop.
  - destruct op; try discriminate. simpl.
    now destruct (awaited_destroy_effect invoke st)
      as (_ & _ & _ & _ & _ & _ & H).
  - destruct (isResume op) eqn:Hres.
    + destruct op; try discriminate. simpl.
      now destruct (resumeStartup_effect st)
        as (_ & _ & _ & _ & _ & _ & _ & _ & H & _).
    + destruct (step_frame invoke generateId st op Hop Hres)
        as (_ & _ & _ & _ & H).
      now rewrite H.
Qed.

(** While its start-up is pending an adapter is not connected and has no
    timer, so no method but [destroy] reaches an [await] then. *)
Lemma pending_adapter_is_idle {casing : Casing} (invoke : Remote)
    (generateId : nat -> string) (probe : Result bool) (cfg : ConfigObject)
    (now : Z) (ops : list Op) :
  let st := run invoke generateId (construct probe cfg now) ops in
  startup st <> None -> isConnected st = false /\ syncTimer st = None.
Proof.
  cbv zeta.
  assert (H : startup (construct probe cfg now) = None \/
              (isConnected (construct probe cfg now) = false /\
               syncTimer (construct probe cfg now) = None)).
  { right. unfold construct. simpl. now destruct (own_enabled cfg). }
  revert H. generalize (construct probe cfg now).
  induction ops as [|op r IH]; intros st H; simpl.
  - intros Hp. destruct H as [H | H]; [contradiction | exact H].
  - apply IH. destruct H as [H | [Hc Ht]].
    + left. now apply step_keeps_started.
    + destruct (isDestroy op) eqn:Hop.
      * left. destruct op; try discriminate. simpl.
        now destruct (awaited_destroy_effect invoke st)
          as (_ & _ & _ & _ & _ & _ & Hs).
      * destruct (isResume op) eqn:Hres.
        -- left. destruct op; try discriminate. simpl.
           now destruct (resumeStartup_effect st)
             as (_ & _ & _ & _ & _ & _ & _ & _ & Hs & _).
        -- right.
           destruct (step_frame invoke generateId st op Hop Hres)
             as (Hc' & Ht' & _).
           now rewrite Hc', Ht'.
Qed.

Lemma step_keeps_disconnected {casing : Casing} (invoke : Remote)
    (generateId : nat -> string) (st : Adapter) (op : Op) :
  startup st = None ->
  (isConnected st = false ->
   isConnected (step invoke generateId st op) = false) /\
  (syncTimer st = None ->
   syncTimer (step invoke generateId st op) = None).
Proof.
  intros Hs. destruct (isDestroy op) eqn:Hop.
  - destruct op; try discriminate. simpl.
    rewrite awaited_destroy_settled by exact Hs.
    destruct (destroy_effect invoke st) as (_ & _ & _ & Hc & Ht & _).
    auto.
  - destruct (isResume op) eqn:Hres.
    + destruct op; try discriminate. simpl.
      destruct (resumeStartup_effect st)
        as (_ & _ & _ & _ & _ & _ & _ & _ & _ & H).
      rewrite (H Hs). auto.
    + destruct (step_frame invoke generateId st op Hop Hres)
        as (Hc & Ht & _).
      rewrite Hc, Ht. auto.
Qed.

(** X1: there is no reconnection.  Once its start-up has resumed, an
    adapter that is not connected and has no sync timer is still not
    connected and still has no timer after any sequence of operations. *)
Theorem never_reconnects {casing : Casing} (invoke : Remote)
    (generateId : nat -> string) (ops : list Op) (st : Adapter) :
  startup st = None ->
  isConnected st = false ->
  syncTimer st = None ->
  isConnected (run invoke generateId st ops) = false /\
  syncTimer (run invoke generateId st ops) = None.
Proof.
  revert st. induction ops as [|op r IH]; intros st Hs Hc Ht; simpl; auto.
  destruct (step_keeps_disconnected invoke generateId st op Hs) as [H1 H2].
  apply IH; auto. now apply step_keeps_started.
Qed.

Lemma never_reconnects_witness :
  isConnected
    (run mockRemote Samples.ids Samples.degraded
       [op_addMemory "n1" "c1" None; op_searchNodes "c1" None;
        op_startupResumes; op_clearGraph; op_timerFires]) = false /\
  syncTimer
    (run mockRemote Samples.ids Samples.degraded
       [op_addMemory "n1" "c1" None; op_searchNodes "c1" None;
        op_startupResumes; op_clearGraph; op_timerFires]) = None.
Proof.
  apply (never_reconnects mockRemote Samples.ids
           [op_addMemory "n1" "c1" None; op_searchNodes "c1" None;
            op_startupResumes; op_clearGraph; op_timerFires]
           Samples.degraded);
    reflexivity.
Defined.

(** While the start-up is pending the adapter is not connected: with the
    tool present, the first write after [new] is only buffered, and the
    write after the start-up has resumed reaches the remote service. *)
Example write_before_and_after_startup :
  calls
    (run mockRemote Samples.ids
       (construct (Returned true) Samples.defaults 0)
       [op_addMemory "n1" "c1" None; op_startupResumes;
        op_addMemory "n2" "c2" None])
  = [add_memory "n2" "c2" src_text None "default" "1"].
Proof. reflexivity. Qed.

Lemma step_disconnected_calls {casing : Casing} (invoke : Remote)
    (generateId : nat -> string) (st : Adapter) (op : Op) :
  startup st = None ->
  isConnected st = false ->
  syncTimer st = None ->
  isDestroy op = false ->
  calls (step invoke generateId st op) = calls st.
Proof.
  intros Hs Hc Ht Hop.
  assert (Hadd : forall n c o,
            calls (snd (addMemory invoke generateId n c o st)) = calls st).
  { intros n c o.
    destruct (addMemory_effect invoke generateId n c o st)
      as (_ & _ & _ & H & _).
    rewrite H, Hc. reflexivity. }
  destruct op; simpl in *; try discriminate; try apply Hadd; auto.
  - unfold searchNodes. run_method. now rewrite Hc.
  - unfold searchFacts. run_method. now rewrite Hc.
  - rewrite fromMemoryEntry_run.
    destruct (me_json entry); [apply Hadd | reflexivity].
  - unfold getRecentEpisodes. run_method. now rewrite Hc.
  - unfold clearGraph. run_method. now rewrite Hc.
  - unfold updateFactValidity. run_method. branch; auto.
  - unfold shareWithHiveMind. run_method. branch; auto.
  - unfold tick, bind, this. now rewrite Ht.
  - now destruct (resumeStartup_effect st) as (_ & _ & _ & _ & H & _).
Qed.

(** X2: once its start-up has resumed, an adapter that is not connected
    and has no sync timer makes no remote call in any sequence of
    operations that contains no [destroy]: writes are only buffered,
    searches and [getRecentEpisodes] read local state, [clearGraph] clears
    local state only. *)
Theorem disconnected_adapter_is_silent {casing : Casing} (invoke : Remote)
    (generateId : nat -> string) (ops : list Op) (st : Adapter) :
  startup st = None ->
  isConnected st = false ->
  syncTimer st = None ->
  forallb (fun op => negb (isDestroy op)) ops = true ->
  calls (run invoke generateId st ops) = calls st.
Proof.
  revert st.
  induction ops as [|op r IH]; intros st Hs Hc Ht Hops; simpl; auto.
  simpl in Hops. apply andb_true_iff in Hops. destruct Hops as [Hop Hr].
  apply negb_true_iff in Hop.
  destruct (step_keeps_disconnected invoke generateId st op Hs) as [H1 H2].
  rewrite IH; auto.
  - now apply step_disconnected_calls.
  - now apply step_keeps_started.
Qed.

Lemma disconnected_adapter_is_silent_witness :
  calls
    (run Samples.failingRemote Samples.ids Samples.degraded
       [op_addMemory "n1" "c1" None; op_searchFacts "c1" None;
        op_startupResumes;
        op_getRecentEpisodes None None; op_clearGraph; op_timerFires])
  = [].
Proof.
  apply (disconnected_adapter_is_silent Samples.failingRemote Samples.ids
           [op_addMemory "n1" "c1" None; op_searchFacts "c1" None;
            op_startupResumes;
            op_getRecentEpisodes None None; op_clearGraph; op_timerFires]
           Samples.degraded);
    reflexivity.
Defined.



(** An adapter that never was connected still calls the remote service
    when it is destroyed. *)
Example destroy_degraded_calls_remote :
  isConnected Samples.buffered = false /\
  calls (snd (destroy Samples.failingRemote Samples.buffered))
  = [add_memory "a" "x" src_text None "g1" "0";
     add_memory "c" "z" src_text None "g1" "2";
     add_memory "b" "y" src_json None "g2" "1"].
Proof. split; reflexivity. Qed.

Lemma resumeStartup_timer (st : Adapter) :
  syncTimer st = None \/ isConnected st = true ->
  syncTimer (snd (resumeStartup st)) = None \/
  isConnected (snd (resumeStartup st)) = true.
Proof.
  intros H. unfold resumeStartup, bind, this. cbv beta iota.
  destruct (startup st) as [probe |] eqn:Hs; [| exact H].
  unfold resumeInitialize, startAutoSync. run_method.
  destruct probe as [[] | e]; simpl; auto.
  destruct (cfg_enableAutoSync (config st)) as [[] |]; simpl; auto.
Qed.

Lemma step_timer_connected {casing : Casing} (invoke : Remote)
    (generateId : nat -> string) (st : Adapter) (op : Op) :
  startup st = None \/ isDestroy op = false ->
  syncTimer st = None \/ isConnected st = true ->
  syncTimer (step invoke generateId st op) = None \/
  isConnected (step invoke generateId st op) = true.
Proof.
  intros Hs H. destruct (isDestroy op) eqn:Hop.
  - destruct Hs as [Hs | Hs]; [| discriminate].
    destruct op; try discriminate. simpl.
    rewrite awaited_destroy_settled by exact Hs.
    destruct (destroy_effect invoke st) as (_ & _ & _ & _ & Ht & _).
    now left.
  - destruct (isResume op) eqn:Hres.
    + destruct op; try discriminate. simpl.
      now apply resumeStartup_timer.
    + destruct (step_frame invoke generateId st op Hop Hres)
        as (Hc & Ht & _).
      rewrite Hc, Ht. exact H.
Qed.

(** X4: over the life of an adapter made by the constructor, in which no
    [destroy] is called before the start-up has resumed, the sync timer is
    set only if the adapter is connected: no timer while the start-up is
    pending, in fallback mode or after [destroy]. *)
Theorem timer_only_when_connected {casing : Casing} (invoke : Remote)
    (generateId : nat -> string) (probe : Result bool)
    (cfg : ConfigObject) (now : Z) (ops : list Op) :
  resumesBeforeDestroy ops = true ->
  let st := run invoke generateId (construct probe cfg now) ops in
  syncTimer st = None \/ isConnected st = true.
Proof.
  intros Hops. cbv zeta.
  assert (H : syncTimer (construct probe cfg now) = None \/
              isConnected (construct probe cfg now) = true).
  { left. unfold construct. simpl. now destruct (own_enabled cfg). }
  assert (Hs : startup (construct probe cfg now) = None \/
               resumesBeforeDestroy ops = true) by now right.
  clear Hops. revert H Hs. generalize (construct probe cfg now).
  induction ops as [|op r IH]; intros st H Hs; simpl; auto.
  apply IH.
  - apply step_timer_connected; [| exact H].
    destruct Hs as [Hs | Hs]; [now left |].
    simpl in Hs. destruct (isDestroy op) eqn:E; [| now right].
    destruct op; try discriminate E. discriminate Hs.
  - destruct Hs as [Hs | Hs].
    + left. now apply step_keeps_started.
    + simpl in Hs. apply orb_true_iff in Hs. destruct Hs as [Hs | Hs].
      * left. destruct op; try discriminate. simpl.
        now destruct (resumeStartup_effect st)
          as (_ & _ & _ & _ & _ & _ & _ & _ & Hn & _).
      * right. apply andb_true_iff in Hs. tauto.
Qed.

Lemma timer_only_when_connected_witness :
  let st := run Samples.failingRemote Samples.ids
              (construct (Returned true) Samples.defaults 0)
              [op_addMemory "n1" "c1" None; op_startupResumes;
               op_timerFires; op_destroy; op_addMemory "n2" "c2" None] in
  syncTimer st = None \/ isConnected st = true.
Proof.
  apply (timer_only_when_connected Samples.failingRemote Samples.ids
           (Returned true) Samples.defaults 0
           [op_addMemory "n1" "c1" None; op_startupResumes;
            op_timerFires; op_destroy; op_addMemory "n2" "c2" None]).
  reflexivity.
Defined.

(** A [destroy] called before the start-up has resumed: with the tool
    present the start-up resumes inside [destroy], after the timer was
    looked at, so the adapter ends up not connected with its sync timer
    running. *)
Example destroy_before_startup_keeps_timer :
  let st := run mockRemote Samples.ids
              (construct (Returned true) Samples.defaults 0) [op_destroy] in
  isConnected st = false /\
  syncTimer st = Some {| interval := Some 30000%Z |} /\
  emitted st = [ev_sync_completed 0; ev_connected; ev_destroyed].
Proof. repeat split. Qed.

(** The same with one episode buffered: the start-up resumes at the
    first delivery, before the sync pass completes. *)
Example destroy_before_startup_with_episode :
  let st := run mockRemote Samples.ids
              (construct (Returned true) Samples.defaults 0)
              [op_addMemory "n1" "c1" None; op_destroy] in
  isConnected st = false /\
  syncTimer st = Some {| interval := Some 30000%Z |} /\
  emitted st
  = [ev_memory_added Samples.episode0; ev_connected; ev_sync_completed 0;
     ev_destroyed] /\
  calls st = [add_memory "n1" "c1" src_text None "default" "0"].
Proof. repeat split. Qed.

(* ================================================================= *)
(** ** The caches over the adapter's life *)

Lemma slice_nil (A : Type) (a b : Z) : slice (@nil A) a b = [].
Proof. unfold slice. now rewrite skipn_nil, firstn_nil. Qed.

Lemma resolveNodes_empty (nodeUuids : list string) (st : Adapter) :
  nodeCache st = [] -> resolveNodes nodeUuids st = [].
Proof.
  intros H. unfold resolveNodes. rewrite H.
  induction nodeUuids as [|u r IH]; simpl; auto.
Qed.

Lemma step_keeps_caches_empty {casing : Casing} (invoke : Remote)
    (generateId : nat -> string) (st : Adapter) (op : Op) :
  nodeCache st = [] -> edgeCache st = [] ->
  nodeCache (step invoke generateId st op) = [] /\
  edgeCache (step invoke generateId st op) = [].
Proof.
  intros Hn He.
  assert (Hadd : forall n c o,
            nodeCache (snd (addMemory invoke generateId n c o st)) = [] /\
            edgeCache (snd (addMemory invoke generateId n c o st)) = []).
  { intros n c o.
    destruct (addMemory_effect invoke generateId n c o st) as (Hu & _).
    unfold unchanged in Hu. simpl in Hu.
    destruct Hu as (_ & _ & _ & H1 & H2 & _). rewrite H1, H2. auto. }
  destruct op; simpl; try apply Hadd; auto.
  - unfold searchNodes, callGraphitiTool. run_method. branch; auto.
  - unfold searchFacts, callGraphitiTool. run_method. branch; auto.
  - rewrite fromMemoryEntry_run.
    destruct (me_json entry); [apply Hadd | auto].
  - unfold getRecentEpisodes, callGraphitiTool. run_method. branch; auto.
  - unfold clearGraph, callGraphitiTool. run_method. branch; auto.
  - unfold updateFactValidity. run_method. rewrite He. simpl. branch; auto.
  - unfold shareWithHiveMind. run_method. branch; auto.
  - unfold tick, bind, this. destruct (syncTimer st); simpl; auto.
    destruct (syncWithGraphiti_run invoke st)
      as (_ & _ & _ & _ & _ & _ & _ & H1 & H2 & _).
    rewrite H1, H2. auto.
  - destruct (awaited_destroy_effect invoke st)
      as (_ & _ & H1 & H2 & _). auto.
  - destruct (resumeStartup_effect st) as (_ & _ & H1 & H2 & _).
    rewrite H1, H2. auto.
Qed.

(** X5: no method of the adapter ever puts an entry into the node cache
    or the edge cache.  So on an adapter made by the constructor, after
    any sequence of operations, both caches are empty, the fallback search
    finds no node for any query and reports relevance 0,
    [shareWithHiveMind] emits nothing and [updateFactValidity] changes
    nothing. *)
Theorem caches_stay_empty {casing : Casing} (invoke : Remote)
    (generateId : nat -> string) (probe : Result bool) (cfg : ConfigObject)
    (now : Z) (ops : list Op) :
  let st := run invoke generateId (construct probe cfg now) ops in
  nodeCache st = [] /\
  edgeCache st = [] /\
  (forall query maxNodes,
     fallbackSearch query maxNodes st
     = {| res_nodes := Some []; res_edges := None; res_facts := None;
          res_relevanceScore := zero |}) /\
  (forall nodeUuids targetSwarms,
     shareWithHiveMind nodeUuids targetSwarms st = (Returned tt, st)) /\
  (forall edgeUuid isValid validUntil,
     updateFactValidity edgeUuid isValid validUntil st = (Returned tt, st)).
Proof.
  intros st.
  assert (H : nodeCache st = [] /\ edgeCache st = []).
  { subst st.
    assert (H0 : nodeCache (construct probe cfg now) = [] /\
                 edgeCache (construct probe cfg now) = []).
    { unfold construct. simpl. now destruct (own_enabled cfg). }
    revert H0. generalize (construct probe cfg now).
    induction ops as [|op r IH]; intros st [Hn He]; simpl; auto.
    apply IH. now apply step_keeps_caches_empty. }
  destruct H as [Hn He]. split; [exact Hn | split; [exact He |]].
  split; [| split].
  - intros query maxNodes. unfold fallbackSearch. rewrite Hn. simpl.
    now rewrite slice_nil.
  - intros nodeUuids targetSwarms. unfold shareWithHiveMind. run_method.
    now rewrite resolveNodes_empty.
  - intros edgeUuid isValid validUntil. unfold updateFactValidity.
    run_method. rewrite He. simpl.
    destruct (flag (cfg_enableTemporalTracking (config st))); reflexivity.
Qed.

(* ================================================================= *)
(** ** Which operations throw *)






(** An entry that cannot be serialised makes [fromMemoryEntry] throw on an
    adapter in fallback mode, with nothing buffered. *)
Example fromMemoryEntry_unserialisable :
  let entry := {| me_key := "k"; me_namespace := "ns";
                  me_json :=
                    Thrown "Converting circular structure to JSON" |} in
  isConnected Samples.degraded = false /\
  fromMemoryEntry Samples.failingRemote Samples.ids entry Samples.degraded
  = (Thrown "Converting circular structure to JSON", Samples.degraded).
Proof. split; reflexivity. Qed.

(* ================================================================= *)
(** ** Remote search results *)

Lemma score_or_half_nonzero (a : option Q) :
  (Qnum (score_or a half) <> 0)%Z.
Proof.
  unfold score_or. destruct a as [q |]; [| discriminate].
  destruct (Qnum q =? 0)%Z eqn:E; [discriminate |].
  now apply Z.eqb_neq.
Qed.

(** X7: on a connected adapter [searchNodes] and [searchFacts] make one
    remote call and return; the relevance they report is zero exactly when
    that call threw, because a zero or absent relevance of the remote
    service is replaced by 0.5; when the call succeeds its [nodes]
    (respectively [facts]) are passed on as they are. *)
Theorem search_relevance_zero_iff_failure {casing : Casing} (invoke : Remote)
    (query : string)
    (st : Adapter) :
  isConnected st = true ->
  (forall options,
     let request :=
       search_memory_nodes query (optional options sn_groupIds)
         (num_or (optional options sn_maxNodes) (cfg_maxNodes (config st)))
         (optional options sn_entityType)
         (optional options sn_centerNodeUuid) in
     exists result,
       fst (searchNodes invoke query options st) = Returned result /\
       calls (snd (searchNodes invoke query options st))
       = calls st ++ [request] /\
       ((Qnum (res_relevanceScore result) = 0)%Z <->
        exists e, invoke (calls st) request = Thrown e) /\
       (forall found, invoke (calls st) request = Returned found ->
          res_nodes result = tr_nodes found)) /\
  (forall options,
     let request :=
       search_memory_facts query (optional options sf_groupIds)
         (num_or (optional options sf_maxFacts) (cfg_maxFacts (config st)))
         (optional options sf_centerNodeUuid) in
     exists result,
       fst (searchFacts invoke query options st) = Returned result /\
       calls (snd (searchFacts invoke query options st))
       = calls st ++ [request] /\
       ((Qnum (res_relevanceScore result) = 0)%Z <->
        exists e, invoke (calls st) request = Thrown e) /\
       (forall found, invoke (calls st) request = Returned found ->
          res_facts result = tr_facts found)).
Proof.
  intros Hc. split; intros options request.
  - unfold searchNodes, callGraphitiTool. run_method. rewrite Hc. simpl.
    fold request.
    destruct (invoke (calls st) request) as [found | e]; simpl;
      eexists; (split; [reflexivity |]); (split; [reflexivity |]); split.
    + simpl. split.
      * intros H. now apply score_or_half_nonzero in H.
      * intros [e H]. discriminate.
    + intros found' H. now injection H as <-.
    + simpl. split; eauto.
    + intros found H. discriminate.
  - unfold searchFacts, callGraphitiTool. run_method. rewrite Hc. simpl.
    fold request.
    destruct (invoke (calls st) request) as [found | e]; simpl;
      eexists; (split; [reflexivity |]); (split; [reflexivity |]); split.
    + simpl. split.
      * intros H. now apply score_or_half_nonzero in H.
      * intros [e H]. discriminate.
    + intros found' H. now injection H as <-.
    + simpl. split; eauto.
    + intros found H. discriminate.
Qed.

Lemma search_relevance_zero_iff_failure_witness :
  exists result,
    fst (searchNodes
           (fun _ _ =>
              Returned {| tr_nodes := Some [Samples.alice]; tr_edges := None;
                          tr_facts := None; tr_episodes := None;
                          tr_relevanceScore := Some zero |})
           "alice" None Samples.connected)
    = Returned result /\
    res_nodes result = Some [Samples.alice] /\
    res_relevanceScore result = half.
Proof.
  destruct (search_relevance_zero_iff_failure
              (fun _ _ =>
                 Returned {| tr_nodes := Some [Samples.alice];
                             tr_edges := None; tr_facts := None;
                             tr_episodes := None;
                             tr_relevanceScore := Some zero |})
              "alice" Samples.connected eq_refl) as [Hn _].
  destruct (Hn None) as (result & Hr & _ & _ & Hfound).
  exists result. split; [exact Hr |]. split.
  - apply (Hfound _ eq_refl).
  - simpl in Hr. injection Hr as <-. reflexivity.
Defined.

(* ================================================================= *)
(** ** The write buffer *)

Lemma sum_after_append (q : JsMap.t (list GraphitiEpisode)) (g : string)
    (ep : GraphitiEpisode) :
  sumOfQueueLengths
    (JsMap.set g
       (match JsMap.get g q with Some l => l | None => [] end ++ [ep]) q)
  = S (sumOfQueueLengths q).
Proof.
  unfold sumOfQueueLengths. induction q as [|[k v] r IH]; simpl.
  - reflexivity.
  - destruct (String.eqb g k); simpl.
    + rewrite length_app. simpl. lia.
    + rewrite IH. lia.
Qed.

(** X8: every call of [addMemory] raises the [queuedEpisodes] that
    [getStatistics] reports by exactly one, whether the adapter is
    connected or not and whether the immediate delivery succeeds, throws
    or is not attempted: an episode that was delivered at once is still
    counted as queued. *)
Theorem addMemory_counts_one (invoke : Remote) (generateId : nat -> string)
    (name content : string) (options : option AddMemoryOptions)
    (st : Adapter) :
  queuedEpisodes
    (getStatistics (snd (addMemory invoke generateId name content options st)))
  = S (queuedEpisodes (getStatistics st)).
Proof.
  destruct (addMemory_effect invoke generateId name content options st)
    as (_ & _ & Hq & _).
  unfold getStatistics. simpl. rewrite !queue_count_sum, Hq. simpl.
  apply sum_after_append.
Qed.

Lemma set_binds_entry (V : Type) (k : string) (v : V) (m : JsMap.t V) :
  In (k, v) (JsMap.set k v m).
Proof.
  induction m as [|[k' v'] r IH]; simpl.
  - now left.
  - destruct (String.eqb k k') eqn:E.
    + apply String.eqb_eq in E. subst. now left.
    + right. exact IH.
Qed.

(** X9: on a connected adapter, an episode whose immediate delivery
    succeeded stays in the buffer, and the next sync pass sends it to the
    remote service a second time. *)
Theorem delivered_episode_is_sent_again (invoke : Remote)
    (generateId : nat -> string) (name content : string)
    (options : option AddMemoryOptions) (st : Adapter) (ack : ToolResult) :
  let episode := newEpisode generateId name content options st in
  let added := addMemory invoke generateId name content options st in
  isConnected st = true ->
  invoke (calls st) (flushCall episode) = Returned ack ->
  fst added = Returned (ep_uuid episode) /\
  In episode (queued (episodeQueue (snd added))) /\
  exists others later,
    calls (snd (syncWithGraphiti invoke (snd added)))
    = calls st ++ [flushCall episode] ++ others ++ [flushCall episode]
        ++ later.
Proof.
  intros episode added Hc Hi.
  destruct (addMemory_effect invoke generateId name content options st)
    as (_ & _ & Hq & Hcalls & Hres).
  fold episode in Hq, Hcalls, Hres. fold added in Hq, Hcalls, Hres.
  rewrite Hc in Hcalls.
  set (before := match JsMap.get (ep_groupId episode) (episodeQueue st) with
                 | Some q => q
                 | None => []
                 end) in Hq.
  assert (Hentry : In (ep_groupId episode, before ++ [episode])
                     (episodeQueue (snd added))).
  { rewrite Hq. apply set_binds_entry. }
  split; [| split].
  - destruct Hres as [[Hr _] | (e & _ & _ & _ & He)]; [exact Hr |].
    congruence.
  - unfold queued. apply in_flat_map.
    exists (ep_groupId episode, before ++ [episode]). split; [exact Hentry |].
    simpl. apply in_or_app. right. now left.
  - destruct (syncWithGraphiti_run invoke (snd added)) as (_ & Hsync & _).
    destruct (attempts_of_group _ _ _ Hentry) as (pre & post & Ha).
    exists (pre ++ map flushCall before), post.
    rewrite Hsync, Hcalls, Ha, map_app. simpl.
    now rewrite <- !app_assoc.
Qed.

Lemma delivered_episode_is_sent_again_witness :
  let added := addMemory mockRemote Samples.ids "n1" "c1" None
                 Samples.connected in
  fst added = Returned "0" /\
  In Samples.episode0 (queued (episodeQueue (snd added))) /\
  exists others later,
    calls (snd (syncWithGraphiti mockRemote (snd added)))
    = [] ++ [flushCall Samples.episode0] ++ others
         ++ [flushCall Samples.episode0] ++ later.
Proof.
  apply (delivered_episode_is_sent_again mockRemote Samples.ids "n1" "c1"
           None Samples.connected
           {| tr_nodes := Some []; tr_edges := Some []; tr_facts := Some [];
              tr_episodes := Some [];
              tr_relevanceScore := Some (Qmake 75 100) |});
    reflexivity.
Defined.

Lemma attempts_emptied (q : JsMap.t (list GraphitiEpisode)) :
  attempts (emptied q) = [].
Proof. unfold attempts, emptied. induction q; simpl; auto. Qed.

(** X10: a sync pass that follows another with no write in between makes
    no remote call: the first pass left every queue empty. *)
Theorem second_sync_is_silent (invoke : Remote) (st : Adapter) :
  JsMap.wf (episodeQueue st) ->
  let once := snd (syncWithGraphiti invoke st) in
  let twice := snd (syncWithGraphiti invoke once) in
  calls twice = calls once /\
  episodeQueue twice = episodeQueue once.
Proof.
  intros Hwf once twice.
  assert (Hq : episodeQueue once = emptied (episodeQueue st)).
  { destruct (syncWithGraphiti_run invoke st) as (_ & _ & Hq & _).
    subst once. rewrite Hq.
    apply (reset_all_groups (episodeQueue st) []). exact Hwf. }
  assert (Hwf' : JsMap.wf (episodeQueue once)).
  { rewrite Hq. unfold JsMap.wf. now rewrite keys_emptied. }
  destruct (syncWithGraphiti_run invoke once) as (_ & Hc & Hq' & _).
  fold twice in Hc, Hq'. split.
  - rewrite Hc, Hq, attempts_emptied. apply app_nil_r.
  - rewrite Hq'.
    etransitivity;
      [apply (reset_all_groups (episodeQueue once) []); exact Hwf' |].
    simpl. rewrite Hq. unfold emptied. rewrite map_map. reflexivity.
Qed.

Lemma second_sync_is_silent_witness :
  let once := snd (syncWithGraphiti mockRemote Samples.buffered) in
  let twice := snd (syncWithGraphiti mockRemote once) in
  calls twice = calls once /\
  episodeQueue twice = episodeQueue once.
Proof.
  apply (second_sync_is_silent mockRemote Samples.buffered).
  unfold JsMap.wf. simpl. repeat constructor; simpl.
  - intros [H | []]. discriminate.
  - intros [].
Defined.

(* ================================================================= *)
(** ** Invariants of the write buffer *)

(** What one operation does to the buffer: nothing, clear it, append one
    new episode to its group's queue, or reset every queue. *)
Lemma step_queue {casing : Casing} (invoke : Remote)
    (generateId : nat -> string) (st : Adapter) (op : Op) :
  (episodeQueue (step invoke generateId st op) = episodeQueue st /\
   ids (step invoke generateId st op) = ids st) \/
  (episodeQueue (step invoke generateId st op) = [] /\
   ids (step invoke generateId st op) = ids st) \/
  (exists name content options,
     let episode := newEpisode generateId name content options st in
     episodeQueue (step invoke generateId st op)
     = JsMap.set (ep_groupId episode)
         (match JsMap.get (ep_groupId episode) (episodeQueue st) with
          | Some q => q
          | None => []
          end ++ [episode]) (episodeQueue st) /\
     ids (step invoke generateId st op) = S (ids st)) \/
  (episodeQueue (step invoke generateId st op)
   = fold_left (fun q entry => JsMap.set (fst entry) [] q) (episodeQueue st)
       (episodeQueue st) /\
   ids (step invoke generateId st op) = ids st).
Proof.
  assert (Hadd : forall n c o,
            exists name content options,
              let episode := newEpisode generateId name content options st in
              episodeQueue (snd (addMemory invoke generateId n c o st))
              = JsMap.set (ep_groupId episode)
                  (match JsMap.get (ep_groupId episode) (episodeQueue st)
                   with
                   | Some q => q
                   | None => []
                   end ++ [episode]) (episodeQueue st) /\
              ids (snd (addMemory invoke generateId n c o st))
              = S (ids st)).
  { intros n c o. exists n, c, o.
    destruct (addMemory_effect invoke generateId n c o st)
      as (_ & Hi & Hq & _). cbv zeta. auto. }
  destruct op; simpl.
  - right. right. left. apply Hadd.
  - left. unfold searchNodes, callGraphitiTool. run_method. branch; auto.
  - left. unfold searchFacts, callGraphitiTool. run_method. branch; auto.
  - rewrite fromMemoryEntry_run.
    destruct (me_json entry); [right; right; left; apply Hadd | now left].
  - left. unfold getRecentEpisodes, callGraphitiTool. run_method.
    branch; auto.
  - unfold clearGraph, callGraphitiTool. run_method. branch; auto.
  - left. unfold updateFactValidity. run_method. branch; auto.
  - left. unfold shareWithHiveMind. run_method. branch; auto.
  - auto.
  - unfold tick, bind, this. destruct (syncTimer st); simpl; auto.
    destruct (syncWithGraphiti_run invoke st)
      as (_ & _ & Hq & _ & _ & _ & _ & _ & _ & _ & Hi & _).
    right. right. right. auto.
  - destruct (awaited_destroy_effect invoke st)
      as (_ & Hq & _ & _ & Hi & _).
    right. left. auto.
  - destruct (resumeStartup_effect st) as (_ & Hq & _ & _ & _ & Hi & _).
    left. auto.
Qed.

Lemma in_set_inv (V : Type) (k k' : string) (v v' : V) (m : JsMap.t V) :
  In (k', v') (JsMap.set k v m) -> (k' = k /\ v' = v) \/ In (k', v') m.
Proof.
  induction m as [|[k0 v0] r IH]; simpl.
  - intros [H | []]. injection H as <- <-. now left.
  - destruct (String.eqb k k0) eqn:E; simpl.
    + apply String.eqb_eq in E. subst k0.
      intros [H | H]; [injection H as <- <-; now left | right; now right].
    + intros [H | H]; [right; now left |].
      destruct (IH H) as [H' | H']; [now left | right; now right].
Qed.

Lemma get_some_in (V : Type) (k : string) (v : V) (m : JsMap.t V) :
  JsMap.get k m = Some v -> In (k, v) m.
Proof.
  induction m as [|[k0 v0] r IH]; simpl; [discriminate |].
  destruct (String.eqb k k0) eqn:E.
  - apply String.eqb_eq in E. subst k0. intros H. injection H as <-.
    now left.
  - intros H. right. auto.
Qed.

Lemma newEpisode_group_not_empty (generateId : nat -> string)
    (name content : string) (options : option AddMemoryOptions)
    (st : Adapter) :
  ep_groupId (newEpisode generateId name content options st) <> EmptyString.
Proof.
  simpl. unfold str_or_lit, str_or.
  destruct (optional options am_groupId) as [[|a s] |];
    destruct (cfg_defaultGroupId (config st)) as [[|b t] |];
    discriminate.
Qed.

Lemma reset_own_groups (q : JsMap.t (list GraphitiEpisode)) :
  JsMap.wf q ->
  fold_left (fun q entry => JsMap.set (fst entry) [] q) q q = emptied q.
Proof. intros Hwf. exact (reset_all_groups q [] Hwf). Qed.

Lemma emptied_grouped (q : JsMap.t (list GraphitiEpisode)) :
  grouped q -> grouped (emptied q).
Proof.
  unfold grouped, JsMap.wf. rewrite keys_emptied.
  intros (Hwf & Hk & _). repeat split; auto.
  intros g eps Hin. unfold emptied in Hin. apply in_map_iff in Hin.
  destruct Hin as [[k v] [H _]]. injection H as _ <-. constructor.
Qed.

Lemma step_keeps_grouped {casing : Casing} (invoke : Remote)
    (generateId : nat -> string)
    (st : Adapter) (op : Op) :
  grouped (episodeQueue st) ->
  grouped (episodeQueue (step invoke generateId st op)).
Proof.
  intros Hg.
  destruct (step_queue invoke generateId st op)
    as [[Hq _] | [[Hq _] | [(n & c & o & Hq & _) | [Hq _]]]]; rewrite Hq.
  - exact Hg.
  - repeat split; [constructor | constructor | intros g eps []].
  - cbv zeta. set (ep := newEpisode generateId n c o st).
    destruct Hg as (Hwf & Hk & Hown). repeat split.
    + now apply set_preserves_wf.
    + apply Forall_forall. intros g Hin.
      unfold JsMap.keys in Hin. apply in_map_iff in Hin.
      destruct Hin as [[k v] [<- Hin]]. simpl.
      apply in_set_inv in Hin. destruct Hin as [[-> _] | Hin].
      * apply newEpisode_group_not_empty.
      * rewrite Forall_forall in Hk. apply Hk.
        unfold JsMap.keys. apply in_map_iff. now exists (k, v).
    + intros g eps Hin. apply in_set_inv in Hin.
      destruct Hin as [[-> ->] | Hin]; [| eauto].
      apply Forall_app. split; [| now repeat constructor].
      destruct (JsMap.get (ep_groupId ep) (episodeQueue st)) as [l |] eqn:E;
        [| constructor].
      apply get_some_in in E. eauto.
  - rewrite reset_own_groups by apply Hg.
    now apply emptied_grouped.
Qed.

(** X11: at every moment of the life of an adapter made by the
    constructor, the write buffer has one queue per group, no group id is
    the empty string, and every episode sits in the queue of its own
    [groupId]. *)
Theorem buffer_is_grouped {casing : Casing} (invoke : Remote)
    (generateId : nat -> string)
    (probe : Result bool) (cfg : ConfigObject) (now : Z) (ops : list Op) :
  let st := run invoke generateId (construct probe cfg now) ops in
  JsMap.wf (episodeQueue st) /\
  Forall (fun g => g <> EmptyString) (JsMap.keys (episodeQueue st)) /\
  forall g eps,
    In (g, eps) (episodeQueue st) ->
    Forall (fun ep => ep_groupId ep = g) eps.
Proof.
  cbv zeta. change (grouped (episodeQueue
                     (run invoke generateId (construct probe cfg now) ops))).
  assert (H0 : grouped (episodeQueue (construct probe cfg now))).
  { assert (E : episodeQueue (construct probe cfg now) = []).
    { unfold construct. simpl. now destruct (own_enabled cfg). }
    rewrite E. repeat split; [constructor | constructor | intros g eps []]. }
  revert H0. generalize (construct probe cfg now).
  induction ops as [|op r IH]; intros st H; simpl; auto.
  apply IH. now apply step_keeps_grouped.
Qed.

Lemma queued_set_append (q : JsMap.t (list GraphitiEpisode)) (g : string)
    (ep : GraphitiEpisode) :
  Permutation
    (queued
       (JsMap.set g
          (match JsMap.get g q with Some l => l | None => [] end ++ [ep]) q))
    (ep :: queued q).
Proof.
  unfold queued. induction q as [|[k v] r IH]; simpl.
  - apply Permutation_refl.
  - destruct (String.eqb g k); simpl.
    + rewrite <- app_assoc. simpl. apply Permutation_sym.
      apply Permutation_middle.
    + eapply Permutation_trans;
        [apply Permutation_app_head; exact IH |].
      apply Permutation_sym. apply Permutation_middle.
Qed.

Lemma queued_emptied (q : JsMap.t (list GraphitiEpisode)) :
  queued (emptied q) = [].
Proof. unfold queued, emptied. induction q; simpl; auto. Qed.

Lemma step_keeps_distinctIds {casing : Casing} (invoke : Remote)
    (generateId : nat -> string)
    (st : Adapter) (op : Op) :
  (forall a b, generateId a = generateId b -> a = b) ->
  JsMap.wf (episodeQueue st) ->
  distinctIds generateId st ->
  distinctIds generateId (step invoke generateId st op).
Proof.
  intros Hinj Hwf [Hb Hn]. unfold distinctIds.
  destruct (step_queue invoke generateId st op)
    as [[Hq Hi] | [[Hq Hi] | [(n & c & o & Hq & Hi) | [Hq Hi]]]];
    rewrite Hq, Hi.
  - auto.
  - simpl. split; constructor.
  - cbv zeta. set (ep := newEpisode generateId n c o st).
    pose proof (queued_set_append (episodeQueue st) (ep_groupId ep) ep)
      as Hperm.
    assert (Hb' : Forall
                    (fun e => exists k, k < S (ids st) /\
                                        ep_uuid e = generateId k)
                    (ep :: queued (episodeQueue st))).
    { constructor.
      - exists (ids st). split; [lia | reflexivity].
      - eapply Forall_impl; [| exact Hb].
        intros e (k & Hk & He). exists k. split; [lia | exact He]. }
    split.
    + eapply Permutation_Forall; [apply Permutation_sym; exact Hperm |].
      exact Hb'.
    + eapply Permutation_NoDup;
        [apply Permutation_map; apply Permutation_sym; exact Hperm |].
      simpl. constructor; [| exact Hn].
      intros Hin. apply in_map_iff in Hin. destruct Hin as (e & He & Hin).
      rewrite Forall_forall in Hb. destruct (Hb e Hin) as (k & Hk & Hk').
      rewrite Hk' in He. apply Hinj in He. lia.
  - rewrite reset_own_groups by exact Hwf. rewrite queued_emptied.
    simpl. split; constructor.
Qed.

Lemma tally_injective (a b : nat) : tally a = tally b -> a = b.
Proof.
  revert b. induction a as [|a IH]; intros [|b]; simpl; intros H;
    try discriminate; auto.
  injection H as H. f_equal. auto.
Qed.

(** X12: when [generateId] never returns the same identifier twice, at
    every moment of the life of an adapter made by the constructor the
    buffered episodes have pairwise distinct uuids, and the uuid of the
    next episode is none of theirs. *)
Theorem buffered_uuids_are_distinct {casing : Casing} (invoke : Remote)
    (generateId : nat -> string) (probe : Result bool)
    (cfg : ConfigObject) (now : Z) (ops : list Op) :
  (forall a b, generateId a = generateId b -> a = b) ->
  let st := run invoke generateId (construct probe cfg now) ops in
  NoDup (map ep_uuid (queued (episodeQueue st))) /\
  forall name content options,
    ~ In (ep_uuid (newEpisode generateId name content options st))
         (map ep_uuid (queued (episodeQueue st))).
Proof.
  intros Hinj st.
  assert (H : JsMap.wf (episodeQueue st) /\ distinctIds generateId st).
  { subst st.
    assert (H0 : JsMap.wf (episodeQueue (construct probe cfg now)) /\
                 distinctIds generateId (construct probe cfg now)).
    { assert (E : episodeQueue (construct probe cfg now) = []).
      { unfold construct. simpl. now destruct (own_enabled cfg). }
      unfold distinctIds. rewrite E. simpl.
      repeat split; constructor. }
    revert H0. generalize (construct probe cfg now).
    induction ops as [|op r IH]; intros st [Hwf Hd]; simpl; auto.
    apply IH. split.
    - now apply step_preserves_wf.
    - now apply step_keeps_distinctIds. }
  destruct H as (_ & Hb & Hn). split; [exact Hn |].
  intros name content options Hin. simpl in Hin.
  apply in_map_iff in Hin. destruct Hin as (e & He & Hin).
  rewrite Forall_forall in Hb. destruct (Hb e Hin) as (k & Hk & Hk').
  rewrite Hk' in He. apply Hinj in He. lia.
Qed.

Lemma buffered_uuids_are_distinct_witness :
  let st :=
    run mockRemote tally (construct (Returned true) Samples.defaults 0)
      [op_addMemory "a" "x" None; op_addMemory "b" "y" None;
       op_timerFires; op_addMemory "c" "z" None] in
  NoDup (map ep_uuid (queued (episodeQueue st))) /\
  forall name content options,
    ~ In (ep_uuid (newEpisode tally name content options st))
         (map ep_uuid (queued (episodeQueue st))).
Proof.
  apply (buffered_uuids_are_distinct mockRemote tally (Returned true)
           Samples.defaults 0
           [op_addMemory "a" "x" None; op_addMemory "b" "y" None;
            op_timerFires; op_addMemory "c" "z" None]).
  exact tally_injective.
Defined.

(* ================================================================= *)
(** ** [getRecentEpisodes] on a disconnected adapter *)

Lemma slice_from_zero (A : Type) (l : list A) : slice_from l 0 = l.
Proof.
  unfold slice_from, slice, js_index.
  rewrite Z.ltb_irrefl.
  destruct (Z.ltb_spec (Z.of_nat (List.length l)) 0) as [H | _]; [lia |].
  rewrite (Z.min_l 0) by lia. rewrite Z.min_id, Z.sub_0_r, Nat2Z.id.
  simpl. apply firstn_all.
Qed.

(** [l.slice(-n)] keeps the last [n] elements. *)
Lemma slice_from_last (A : Type) (l : list A) (n : Z) :
  (0 < n)%Z ->
  slice_from l (- n) = skipn (List.length l - Z.to_nat n) l.
Proof.
  intros Hn. unfold slice_from, slice, js_index.
  destruct (Z.ltb_spec (- n) 0) as [_ | H]; [| lia].
  destruct (Z.ltb_spec (Z.of_nat (List.length l)) 0) as [H | _]; [lia |].
  rewrite Z.min_id.
  replace (Z.to_nat (Z.max (Z.of_nat (List.length l) + - n) 0))
    with (List.length l - Z.to_nat n) by lia.
  apply firstn_all2. rewrite length_skipn. lia.
Qed.

Lemma getRecentEpisodes_disconnected (invoke : Remote)
    (groupId : option string) (limit : option Z) (st : Adapter) :
  isConnected st = false ->
  getRecentEpisodes invoke groupId limit st
  = (Returned
       (slice_from
          match JsMap.get (str_or_lit groupId "default") (episodeQueue st)
          with
          | Some q => q
          | None => []
          end
          (- match limit with Some n => n | None => 10%Z end)),
     st).
Proof.
  intros Hc. unfold getRecentEpisodes. run_method. now rewrite Hc.
Qed.

(** X13: on a disconnected adapter [getRecentEpisodes] returns, without
    changing anything, the last [limit] episodes of the group's queue in
    queue order (the last ten when no limit is given); a limit of 0
    returns the whole queue, not the empty list; the group read is the
    given one or, when none is given, the one named "default". *)
Theorem getRecentEpisodes_fallback (invoke : Remote)
    (groupId : option string) (st : Adapter) :
  isConnected st = false ->
  let queue :=
    match JsMap.get (str_or_lit groupId "default") (episodeQueue st) with
    | Some q => q
    | None => []
    end in
  (forall n, (0 < n)%Z ->
     getRecentEpisodes invoke groupId (Some n) st
     = (Returned (skipn (List.length queue - Z.to_nat n) queue), st)) /\
  getRecentEpisodes invoke groupId None st
  = (Returned (skipn (List.length queue - 10) queue), st) /\
  getRecentEpisodes invoke groupId (Some 0%Z) st = (Returned queue, st).
Proof.
  intros Hc queue. split; [| split].
  - intros n Hn. unfold getRecentEpisodes. run_method. rewrite Hc. simpl.
    fold queue. now rewrite slice_from_last.
  - unfold getRecentEpisodes. run_method. rewrite Hc. simpl.
    fold queue. do 2 f_equal. apply (slice_from_last _ queue 10). lia.
  - unfold getRecentEpisodes. run_method. rewrite Hc. simpl.
    fold queue. now rewrite slice_from_zero.
Qed.

Lemma getRecentEpisodes_fallback_witness :
  getRecentEpisodes mockRemote (Some "g1") (Some 1%Z) Samples.buffered
  = (Returned
       [{| ep_uuid := "2"; ep_name := "c"; ep_content := "z";
           ep_source := src_text; ep_sourceDescription := None;
           ep_groupId := "g1"; ep_createdAt := 0 |}],
     Samples.buffered) /\
  fst (getRecentEpisodes mockRemote (Some "g1") (Some 0%Z) Samples.buffered)
  = Returned
      [{| ep_uuid := "0"; ep_name := "a"; ep_content := "x";
          ep_source := src_text; ep_sourceDescription := None;
          ep_groupId := "g1"; ep_createdAt := 0 |};
       {| ep_uuid := "2"; ep_name := "c"; ep_content := "z";
          ep_source := src_text; ep_sourceDescription := None;
          ep_groupId := "g1"; ep_createdAt := 0 |}].
Proof.
  destruct (getRecentEpisodes_fallback mockRemote (Some "g1")
              Samples.buffered eq_refl) as (Hn & _ & H0).
  split.
  - apply (Hn 1%Z). reflexivity.
  - simpl in H0. now rewrite H0.
Defined.

Lemma skipn_last_one (A : Type) (l : list A) (x : A) :
  skipn (List.length (l ++ [x]) - 1) (l ++ [x]) = [x].
Proof.
  rewrite length_app. simpl.
  replace (List.length l + 1 - 1) with (List.length l + 0) by lia.
  rewrite skipn_app, Nat.add_0_r, skipn_all.
  replace (List.length l - List.length l) with 0 by lia.
  reflexivity.
Qed.

(** X14: on a disconnected adapter, an episode written with an explicit
    non-empty group id is what [getRecentEpisodes] with that group id and
    limit 1 returns right after. *)
Theorem addMemory_then_getRecentEpisodes (invoke : Remote)
    (generateId : nat -> string) (name content : string)
    (options : AddMemoryOptions) (g : string) (st : Adapter) :
  isConnected st = false ->
  am_groupId options = Some g ->
  g <> EmptyString ->
  fst (getRecentEpisodes invoke (Some g) (Some 1%Z)
         (snd (addMemory invoke generateId name content (Some options) st)))
  = Returned [newEpisode generateId name content (Some options) st].
Proof.
  intros Hc Hg Hne.
  destruct (addMemory_effect invoke generateId name content (Some options) st)
    as (Hu & _ & Hq & _).
  set (ep := newEpisode generateId name content (Some options) st) in *.
  set (st' := snd (addMemory invoke generateId name content (Some options) st))
    in *.
  assert (Hgroup : ep_groupId ep = g).
  { subst ep. simpl. rewrite Hg. destruct g; [congruence | reflexivity]. }
  assert (Hc' : isConnected st' = false).
  { unfold unchanged in Hu. simpl in Hu. destruct Hu as (_ & H & _).
    now rewrite H. }
  rewrite (getRecentEpisodes_disconnected invoke (Some g) (Some 1%Z) st' Hc').
  cbn [fst].
  replace (str_or_lit (Some g) "default") with g
    by (destruct g; [congruence | reflexivity]).
  rewrite Hq, Hgroup, get_set_same.
  f_equal. rewrite (slice_from_last _ _ 1) by lia.
  apply (skipn_last_one _ _ ep).
Qed.

Lemma addMemory_then_getRecentEpisodes_witness :
  fst (getRecentEpisodes mockRemote (Some "g1") (Some 1%Z)
         (snd (addMemory mockRemote Samples.ids "d" "w"
                 (Some {| am_source := None; am_sourceDescription := None;
                          am_groupId := Some "g1" |})
                 Samples.buffered)))
  = Returned
      [newEpisode Samples.ids "d" "w"
         (Some {| am_source := None; am_sourceDescription := None;
                  am_groupId := Some "g1" |})
         Samples.buffered].
Proof.
  apply (addMemory_then_getRecentEpisodes mockRemote Samples.ids "d" "w"
           {| am_source := None; am_sourceDescription := None;
              am_groupId := Some "g1" |} "g1" Samples.buffered).
  - reflexivity.
  - reflexivity.
  - discriminate.
Defined.

(** X15: on a disconnected adapter whose configuration names a default
    group other than "default", an episode written without a group id goes
    to the configured group, while [getRecentEpisodes] without a group id
    reads the group named "default": the write does not show in what it
    returns. *)
Theorem default_group_mismatch (invoke : Remote)
    (generateId : nat -> string) (name content : string)
    (limit : option Z) (d : string) (st : Adapter) :
  isConnected st = false ->
  cfg_defaultGroupId (config st) = Some d ->
  d <> EmptyString ->
  d <> "default" ->
  let st' := snd (addMemory invoke generateId name content None st) in
  JsMap.get d (episodeQueue st')
  = Some (match JsMap.get d (episodeQueue st) with
          | Some q => q
          | None => []
          end ++ [newEpisode generateId name content None st]) /\
  fst (getRecentEpisodes invoke None limit st')
  = fst (getRecentEpisodes invoke None limit st).
Proof.
  intros Hc Hd Hne Hdef st'.
  destruct (addMemory_effect invoke generateId name content None st)
    as (Hu & _ & Hq & _).
  set (ep := newEpisode generateId name content None st) in *.
  fold st' in Hu, Hq.
  assert (Hgroup : ep_groupId ep = d).
  { subst ep. simpl. rewrite Hd. destruct d; [congruence | reflexivity]. }
  assert (Hc' : isConnected st' = false).
  { unfold unchanged in Hu. simpl in Hu. destruct Hu as (_ & H & _).
    now rewrite H. }
  rewrite Hgroup in Hq. split.
  - rewrite Hq. apply get_set_same.
  - unfold getRecentEpisodes. run_method. rewrite Hc, Hc'. simpl.
    rewrite Hq, get_set_other by congruence. reflexivity.
Qed.

Lemma default_group_mismatch_witness :
  let st' := snd (addMemory mockRemote Samples.ids "n1" "c1" None
                    degradedWithDefaultGroup) in
  JsMap.get "claude_flow_default" (episodeQueue st')
  = Some ([] ++ [newEpisode Samples.ids "n1" "c1" None
                   degradedWithDefaultGroup]) /\
  fst (getRecentEpisodes mockRemote None None st')
  = fst (getRecentEpisodes mockRemote None None degradedWithDefaultGroup).
Proof.
  apply (default_group_mismatch mockRemote Samples.ids "n1" "c1" None
           "claude_flow_default" degradedWithDefaultGroup);
    try reflexivity; discriminate.
Defined.

(* ================================================================= *)
(** ** [shareWithHiveMind] *)

Lemma resolveNodes_in (nodeUuids : list string) (st : Adapter)
    (node : GraphitiNode) :
  In node (resolveNodes nodeUuids st) <->
  exists uuid, In uuid nodeUuids /\ JsMap.get uuid (nodeCache st) = Some node.
Proof.
  unfold resolveNodes. rewrite in_flat_map. split.
  - intros [u [Hin H]]. exists u. split; [exact Hin |].
    destruct (JsMap.get u (nodeCache st)); [| contradiction].
    destruct H as [<- | []]. reflexivity.
  - intros [u [Hin H]]. exists u. split; [exact Hin |].
    rewrite H. now left.
Qed.

(** X16: [shareWithHiveMind] always returns, makes no remote call and
    changes neither caches nor buffer.  The nodes it resolves are exactly
    those cached under one of the given uuids; when none of the uuids is
    cached it emits nothing and leaves the whole state as it was; when at
    least one is, it emits one [hivemind:share] event that carries the
    resolved nodes and the target swarms as given. *)
Theorem shareWithHiveMind_spec (nodeUuids targetSwarms : list string)
    (st : Adapter) :
  let out := shareWithHiveMind nodeUuids targetSwarms st in
  fst out = Returned tt /\
  calls (snd out) = calls st /\
  nodeCache (snd out) = nodeCache st /\
  edgeCache (snd out) = edgeCache st /\
  episodeQueue (snd out) = episodeQueue st /\
  (forall node,
     In node (resolveNodes nodeUuids st) <->
     exists uuid,
       In uuid nodeUuids /\ JsMap.get uuid (nodeCache st) = Some node) /\
  ((forall uuid, In uuid nodeUuids ->
      JsMap.get uuid (nodeCache st) = None) ->
   snd out = st) /\
  (forall uuid node,
     In uuid nodeUuids -> JsMap.get uuid (nodeCache st) = Some node ->
     emitted (snd out)
     = emitted st ++
       [ev_hivemind_share (resolveNodes nodeUuids st) targetSwarms
          (clock st)]).
Proof.
  cbv zeta. unfold shareWithHiveMind. run_method.
  pose proof (fun node => resolveNodes_in nodeUuids st node) as Hres.
  remember (resolveNodes nodeUuids st) as nodes eqn:E in *.
  destruct nodes as [|n ns]; simpl.
  - split; [reflexivity |]. do 4 (split; [reflexivity |]).
    split; [exact Hres | split].
    + intros _. now destruct st.
    + intros uuid node Hin Hget.
      assert (H : In node []) by (apply Hres; eauto).
      contradiction.
  - split; [reflexivity |]. do 4 (split; [reflexivity |]).
    split; [exact Hres | split].
    + intros Hnone.
      assert (H : In n (n :: ns)) by now left.
      apply Hres in H. destruct H as (u & Hin & Hget).
      rewrite (Hnone u Hin) in Hget. discriminate.
    + intros uuid node _ _. reflexivity.
Qed.

(** The documented scenario: one known and one unknown uuid. *)
Example shareWithHiveMind_known_and_unknown :
  emitted (snd (shareWithHiveMind ["u2"; "nowhere"] ["swarmA"]
                  Samples.cached))
  = [ev_fallback; ev_hivemind_share [Samples.bob] ["swarmA"] 0].
Proof. reflexivity. Qed.

(* ================================================================= *)
(** ** Start-up with the probe as shipped *)

(** X17: with the availability probe that the source ships, an enabled
    adapter comes out of the constructor not connected, without a timer
    and with nothing emitted, the probe called once and the start-up
    pending.  When the start-up has resumed, exactly one start-up event
    has been emitted, never [error]: [connected] when the global tool is a
    function, and then the adapter is connected and its sync timer runs
    exactly when the configuration object has no [enableAutoSync] of its
    own or has it as [true] (an own [enableAutoSync] that is [false] or
    [undefined] starts no timer); [fallback] in every other case, also
    when reading the global throws, and then the adapter is not connected
    and has no timer. *)
Theorem shipped_startup (g : GlobalLookup) (cfg : ConfigObject) (now : Z) :
  cfg_enabled (mergeConfig cfg) = true ->
  let fresh := construct_shipped g cfg now in
  let a := started fresh in
  (isConnected fresh = false /\
   syncTimer fresh = None /\
   emitted fresh = [] /\
   probes fresh = 1 /\
   startup fresh = Some (Returned (ConfigFile.found g))) /\
  probes a = 1 /\
  startup a = None /\
  (ConfigFile.found g = true ->
   isConnected a = true /\
   emitted a = [ev_connected] /\
   (own_enableAutoSync cfg = absent \/
    own_enableAutoSync cfg = own (Some true) ->
    exists timer, syncTimer a = Some timer) /\
   (own_enableAutoSync cfg = own (Some false) \/
    own_enableAutoSync cfg = own None ->
    syncTimer a = None)) /\
  (ConfigFile.found g = false ->
   isConnected a = false /\
   emitted a = [ev_fallback] /\
   syncTimer a = None).
Proof.
  intros Hen fresh a. subst a fresh.
  unfold started, construct_shipped, construct. cbn [config].
  rewrite Hen.
  unfold resumeStartup, beginInitialize, resumeInitialize, startAutoSync.
  run_method.
  destruct g; simpl.
  - destruct (own_enableAutoSync cfg) as [| [[] |]] eqn:E; simpl;
      (split; [repeat split |]); (split; [reflexivity |]);
      (split; [reflexivity |]); (split; [| intros H; discriminate H]);
      intros _; (split; [reflexivity |]); (split; [reflexivity |]);
      split; intros [H | H]; try discriminate H; eauto.
  - split; [repeat split |]. split; [reflexivity |].
    split; [reflexivity |]. split; [intros H; discriminate H |].
    intros _. repeat split.
  - split; [repeat split |]. split; [reflexivity |].
    split; [reflexivity |]. split; [intros H; discriminate H |].
    intros _. repeat split.
  - split; [repeat split |]. split; [reflexivity |].
    split; [reflexivity |]. split; [intros H; discriminate H |].
    intros _. repeat split.
Qed.

Lemma shipped_startup_witness :
  let a := started
             (construct_shipped global_function
                {| own_enabled := true;
                   own_apiEndpoint := absent;
                   own_apiKey := absent;
                   own_defaultGroupId := absent;
                   own_maxNodes := absent;
                   own_maxFacts := absent;
                   own_enableAutoSync := own None;
                   own_syncInterval := absent;
                   own_enableTemporalTracking := absent;
                   own_knowledgeRetentionDays := absent |} 0) in
  isConnected a = true /\
  emitted a = [ev_connected] /\
  syncTimer a = None.
Proof.
  destruct (shipped_startup global_function
              {| own_enabled := true;
                 own_apiEndpoint := absent;
                 own_apiKey := absent;
                 own_defaultGroupId := absent;
                 own_maxNodes := absent;
                 own_maxFacts := absent;
                 own_enableAutoSync := own None;
                 own_syncInterval := absent;
                 own_enableTemporalTracking := absent;
                 own_knowledgeRetentionDays := absent |} 0
              eq_refl) as (_ & _ & _ & Hf & _).
  destruct (Hf eq_refl) as (Hc & He & _ & Ht).
  split; [exact Hc |]. split; [exact He |]. apply Ht. now right.
Defined.

(** An own [enableAutoSync: undefined] overwrites the default [true]. *)
Example spread_copies_undefined :
  spread (Some true) (own None) = None /\
  spread (Some true) absent = Some true /\
  spread (Some true) (own (Some false)) = Some false.
Proof. repeat split. Qed.

(* ================================================================= *)
(** ** The configuration module *)

Lemma getGraphitiConfig_sticky (g : GlobalLookup) (h : ConfigFile.Heap) :
  (ConfigFile.ad_enableAutoSync (ConfigFile.adapter h) = false ->
   ConfigFile.ad_enableAutoSync
     (ConfigFile.adapter (ConfigFile.getGraphitiConfig g h)) = false) /\
  (ConfigFile.in_enableKnowledgeEvolution (ConfigFile.integration h) = false ->
   ConfigFile.in_enableKnowledgeEvolution
     (ConfigFile.integration (ConfigFile.getGraphitiConfig g h)) = false).
Proof. destruct g; simpl; auto. Qed.

Lemma getGraphitiConfig_not_found (g : GlobalLookup) (h : ConfigFile.Heap) :
  ConfigFile.found g = false ->
  ConfigFile.ad_enableAutoSync
    (ConfigFile.adapter (ConfigFile.getGraphitiConfig g h)) = false /\
  ConfigFile.in_enableKnowledgeEvolution
    (ConfigFile.integration (ConfigFile.getGraphitiConfig g h)) = false.
Proof. destruct g; simpl; auto; discriminate. Qed.

Lemma getGraphitiConfigs_snoc (gs : list GlobalLookup) (g : GlobalLookup)
    (h : ConfigFile.Heap) :
  ConfigFile.getGraphitiConfigs (gs ++ [g]) h
  = ConfigFile.getGraphitiConfig g (ConfigFile.getGraphitiConfigs gs h).
Proof. unfold ConfigFile.getGraphitiConfigs. now rewrite fold_left_app. Qed.

(** X18: [getGraphitiConfig] writes through its shallow copy into the
    objects of [defaultGraphitiConfig].  Once one call has not found the
    tool, every configuration read afterwards has [enableAutoSync] and
    [enableKnowledgeEvolution] off, whatever the later calls find: a later
    call that finds the tool sets [mcp.available] to true and switches
    neither back on. *)
Theorem autosync_never_comes_back (before after : list GlobalLookup)
    (g : GlobalLookup) (h : ConfigFile.Heap) :
  ConfigFile.found g = false ->
  let h' := ConfigFile.getGraphitiConfigs (before ++ g :: after) h in
  ConfigFile.ad_enableAutoSync (ConfigFile.gc_adapter (ConfigFile.read h'))
  = false /\
  ConfigFile.in_enableKnowledgeEvolution
    (ConfigFile.gc_integration (ConfigFile.read h')) = false.
Proof.
  intros Hg h'. subst h'. simpl.
  unfold ConfigFile.getGraphitiConfigs. rewrite fold_left_app. simpl.
  set (h0 := fold_left _ before h).
  pose proof (getGraphitiConfig_not_found g h0 Hg) as H0.
  revert H0. generalize (ConfigFile.getGraphitiConfig g h0).
  induction after as [|g' r IH]; intros h1 H1; simpl; [exact H1 |].
  apply IH. destruct H1 as [Ha Hi].
  destruct (getGraphitiConfig_sticky g' h1) as [Ha' Hi']. auto.
Qed.

Lemma autosync_never_comes_back_witness :
  let h' :=
    ConfigFile.getGraphitiConfigs ([] ++ global_undefined :: [global_function])
      ConfigFile.defaultGraphitiConfig in
  ConfigFile.ad_enableAutoSync (ConfigFile.gc_adapter (ConfigFile.read h'))
  = false /\
  ConfigFile.in_enableKnowledgeEvolution
    (ConfigFile.gc_integration (ConfigFile.read h')) = false.
Proof.
  apply (autosync_never_comes_back [] [global_function] global_undefined
           ConfigFile.defaultGraphitiConfig).
  reflexivity.
Defined.

(** After a failed and then a successful lookup the tool is reported
    available and auto-sync is off. *)
Example available_without_autosync :
  let h :=
    ConfigFile.getGraphitiConfigs [global_undefined; global_function]
      ConfigFile.defaultGraphitiConfig in
  ConfigFile.available (ConfigFile.mcp h) = true /\
  ConfigFile.ad_enableAutoSync (ConfigFile.adapter h) = false.
Proof. split; reflexivity. Qed.

(** Everything a series of [getGraphitiConfig] calls does to the module's
    objects. *)
Lemma getGraphitiConfigs_effect (gs : list GlobalLookup)
    (h : ConfigFile.Heap) :
  let h' := ConfigFile.getGraphitiConfigs gs h in
  let allFound := forallb ConfigFile.found gs in
  let a := ConfigFile.adapter h in
  let i := ConfigFile.integration h in
  ConfigFile.serverName (ConfigFile.mcp h')
  = ConfigFile.serverName (ConfigFile.mcp h) /\
  ConfigFile.features h' = ConfigFile.features h /\
  ConfigFile.adapter h'
  = {| ConfigFile.ad_enabled := ConfigFile.ad_enabled a;
       ConfigFile.ad_defaultGroupId := ConfigFile.ad_defaultGroupId a;
       ConfigFile.ad_maxNodes := ConfigFile.ad_maxNodes a;
       ConfigFile.ad_maxFacts := ConfigFile.ad_maxFacts a;
       ConfigFile.ad_enableAutoSync :=
         ConfigFile.ad_enableAutoSync a && allFound;
       ConfigFile.ad_syncInterval := ConfigFile.ad_syncInterval a;
       ConfigFile.ad_enableTemporalTracking :=
         ConfigFile.ad_enableTemporalTracking a;
       ConfigFile.ad_knowledgeRetentionDays :=
         ConfigFile.ad_knowledgeRetentionDays a |} /\
  ConfigFile.integration h'
  = {| ConfigFile.in_enabled := ConfigFile.in_enabled i;
       ConfigFile.in_enablePatternExtraction :=
         ConfigFile.in_enablePatternExtraction i;
       ConfigFile.in_enableInsightGeneration :=
         ConfigFile.in_enableInsightGeneration i;
       ConfigFile.in_enableKnowledgeEvolution :=
         ConfigFile.in_enableKnowledgeEvolution i && allFound;
       ConfigFile.in_graphGroupPrefix := ConfigFile.in_graphGroupPrefix i;
       ConfigFile.in_minPatternConfidence :=
         ConfigFile.in_minPatternConfidence i;
       ConfigFile.in_insightGenerationInterval :=
         ConfigFile.in_insightGenerationInterval i;
       ConfigFile.in_knowledgeEvolutionThreshold :=
         ConfigFile.in_knowledgeEvolutionThreshold i |} /\
  ConfigFile.console h'
  = ConfigFile.console h ++ flat_map ConfigFile.warnings gs.
Proof.
  cbv zeta. revert h. induction gs as [|g gs IH]; intros h.
  - simpl. rewrite app_nil_r, !andb_true_r.
    destruct h as [m a i f c]. destruct a, i. repeat split.
  - change (ConfigFile.getGraphitiConfigs (g :: gs) h)
      with (ConfigFile.getGraphitiConfigs gs
              (ConfigFile.getGraphitiConfig g h)).
    destruct (IH (ConfigFile.getGraphitiConfig g h))
      as (H1 & H2 & H3 & H4 & H5).
    rewrite H1, H2, H3, H4, H5.
    destruct h as [m a i f c]. destruct a, i.
    destruct g; simpl; rewrite <- ?app_assoc, ?andb_true_r, ?andb_false_r;
      repeat split.
Qed.

(** X19: whatever the lookups of a series of [getGraphitiConfig] calls
    find, the configuration read afterwards reports as [mcp.available]
    what the last call found and has the server name, the features and
    every setting of [memory.adapter] and [hiveMind.integration] as
    before, except [enableAutoSync] and [enableKnowledgeEvolution]: these
    two keep their values when every call has found the tool and are off
    otherwise.  The console has received one warning for every call that
    did not find the tool, and one more when reading the global threw. *)
Theorem getGraphitiConfigs_frame (gs : list GlobalLookup) (g : GlobalLookup)
    (h : ConfigFile.Heap) :
  let lookups := gs ++ [g] in
  let h' := ConfigFile.getGraphitiConfigs lookups h in
  let allFound := forallb ConfigFile.found lookups in
  let a := ConfigFile.adapter h in
  let i := ConfigFile.integration h in
  ConfigFile.mcp h'
  = {| ConfigFile.serverName := ConfigFile.serverName (ConfigFile.mcp h);
       ConfigFile.available := ConfigFile.found g |} /\
  ConfigFile.features h' = ConfigFile.features h /\
  ConfigFile.adapter h'
  = {| ConfigFile.ad_enabled := ConfigFile.ad_enabled a;
       ConfigFile.ad_defaultGroupId := ConfigFile.ad_defaultGroupId a;
       ConfigFile.ad_maxNodes := ConfigFile.ad_maxNodes a;
       ConfigFile.ad_maxFacts := ConfigFile.ad_maxFacts a;
       ConfigFile.ad_enableAutoSync :=
         ConfigFile.ad_enableAutoSync a && allFound;
       ConfigFile.ad_syncInterval := ConfigFile.ad_syncInterval a;
       ConfigFile.ad_enableTemporalTracking :=
         ConfigFile.ad_enableTemporalTracking a;
       ConfigFile.ad_knowledgeRetentionDays :=
         ConfigFile.ad_knowledgeRetentionDays a |} /\
  ConfigFile.integration h'
  = {| ConfigFile.in_enabled := ConfigFile.in_enabled i;
       ConfigFile.in_enablePatternExtraction :=
         ConfigFile.in_enablePatternExtraction i;
       ConfigFile.in_enableInsightGeneration :=
         ConfigFile.in_enableInsightGeneration i;
       ConfigFile.in_enableKnowledgeEvolution :=
         ConfigFile.in_enableKnowledgeEvolution i && allFound;
       ConfigFile.in_graphGroupPrefix := ConfigFile.in_graphGroupPrefix i;
       ConfigFile.in_minPatternConfidence :=
         ConfigFile.in_minPatternConfidence i;
       ConfigFile.in_insightGenerationInterval :=
         ConfigFile.in_insightGenerationInterval i;
       ConfigFile.in_knowledgeEvolutionThreshold :=
         ConfigFile.in_knowledgeEvolutionThreshold i |} /\
  ConfigFile.console h'
  = ConfigFile.console h ++ flat_map ConfigFile.warnings lookups /\
  (allFound = true ->
   ConfigFile.adapter h' = ConfigFile.adapter h /\
   ConfigFile.integration h' = ConfigFile.integration h /\
   ConfigFile.console h' = ConfigFile.console h).
Proof.
  intros lookups h' allFound a i.
  destruct (getGraphitiConfigs_effect lookups h) as (H1 & H2 & H3 & H4 & H5).
  fold h' allFound a i in H1, H2, H3, H4, H5.
  split; [| split; [exact H2 | split; [exact H3 | split; [exact H4 |
          split; [exact H5 |]]]]].
  - rewrite <- H1. subst h' lookups. rewrite getGraphitiConfigs_snoc.
    set (h0 := ConfigFile.getGraphitiConfigs gs h).
    destruct h0 as [m a0 i0 f c]. destruct m. destruct g; reflexivity.
  - intros Hall. rewrite H3, H4, H5, Hall, !andb_true_r.
    assert (Hw : flat_map ConfigFile.warnings lookups = []).
    { clear - Hall. subst allFound. induction lookups as [|g0 l IH]; simpl.
      - reflexivity.
      - simpl in Hall. apply andb_true_iff in Hall. destruct Hall as [Hg Hl].
        destruct g0; try discriminate Hg. simpl. now apply IH. }
    rewrite Hw, app_nil_r. subst a i.
    destruct (ConfigFile.adapter h), (ConfigFile.integration h).
    repeat split.
Qed.

(** Two calls, the first reading a global whose getter throws: both
    switches are off and stay off, nothing else has changed, and the
    console holds two warnings. *)
Example getGraphitiConfigs_throwing_then_found :
  let h := ConfigFile.getGraphitiConfigs
             [global_getter_throws "boom"; global_function]
             ConfigFile.defaultGraphitiConfig in
  ConfigFile.mcp h
  = {| ConfigFile.serverName := "graphiti"; ConfigFile.available := true |} /\
  ConfigFile.ad_enableAutoSync (ConfigFile.adapter h) = false /\
  ConfigFile.in_enableKnowledgeEvolution (ConfigFile.integration h) = false /\
  ConfigFile.in_enabled (ConfigFile.integration h) = true /\
  ConfigFile.in_graphGroupPrefix (ConfigFile.integration h) = "hivemind_" /\
  ConfigFile.console h
  = ["Graphiti MCP server not available:";
     "Graphiti MCP server not available, some features will be limited"].
Proof. repeat split. Qed.

(* ================================================================= *)
(** ** Writes and reads that reach the remote service *)

(** X20: when the adapter is not connected, or the immediate delivery
    succeeds, [addMemory] returns the uuid that [generateId] produced for
    the episode and emits one [memory:added] event carrying the episode;
    it calls the remote service once, with the episode's fields, exactly
    when the adapter is connected. *)
Theorem addMemory_returns (invoke : Remote) (generateId : nat -> string)
    (name content : string) (options : option AddMemoryOptions)
    (st : Adapter) :
  let episode := newEpisode generateId name content options st in
  let out := addMemory invoke generateId name content options st in
  (isConnected st = false \/
   exists ack, invoke (calls st) (flushCall episode) = Returned ack) ->
  fst out = Returned (generateId (ids st)) /\
  emitted (snd out) = emitted st ++ [ev_memory_added episode] /\
  calls (snd out)
  = (if isConnected st then calls st ++ [flushCall episode] else calls st) /\
  isConnected (snd out) = isConnected st.
Proof.
  intros episode out Hok.
  destruct (addMemory_effect invoke generateId name content options st)
    as (Hu & _ & _ & Hcalls & Hres).
  fold episode in Hcalls, Hres. fold out in Hu, Hcalls, Hres.
  assert (Hc : isConnected (snd out) = isConnected st).
  { unfold unchanged in Hu. simpl in Hu. tauto. }
  destruct Hres as [[Hr He] | (e & _ & _ & Hconn & Hthrown)].
  - auto.
  - exfalso. destruct Hok as [Hd | [ack Hack]]; congruence.
Qed.

Lemma addMemory_returns_witness :
  let out := addMemory mockRemote Samples.ids "n1" "c1" None
               Samples.connected in
  fst out = Returned "0" /\
  emitted (snd out) = [ev_connected; ev_memory_added Samples.episode0] /\
  calls (snd out) = [add_memory "n1" "c1" src_text None "default" "0"] /\
  isConnected (snd out) = true.
Proof.
  apply (addMemory_returns mockRemote Samples.ids "n1" "c1" None
           Samples.connected).
  right. eexists. reflexivity.
Defined.

(** X21: on a connected adapter [getRecentEpisodes] never reads the
    write buffer: it asks the remote service for the given group, or for
    the configured default group when none is given, and returns the
    episodes of the answer, the empty list when the answer has none, and
    the empty list when the call throws. *)
Theorem getRecentEpisodes_connected (invoke : Remote)
    (groupId : option string) (limit : option Z) (st : Adapter) :
  isConnected st = true ->
  let request :=
    get_episodes (str_or groupId (cfg_defaultGroupId (config st)))
      (match limit with Some n => n | None => 10%Z end) in
  calls (snd (getRecentEpisodes invoke groupId limit st))
  = calls st ++ [request] /\
  episodeQueue (snd (getRecentEpisodes invoke groupId limit st))
  = episodeQueue st /\
  fst (getRecentEpisodes invoke groupId limit st)
  = Returned
      match invoke (calls st) request with
      | Returned answer =>
          match tr_episodes answer with
          | Some episodes => episodes
          | None => []
          end
      | Thrown _ => []
      end.
Proof.
  intros Hc request.
  unfold getRecentEpisodes, callGraphitiTool. run_method. rewrite Hc. simpl.
  fold request. destruct (invoke (calls st) request); simpl; repeat split.
Qed.

Lemma getRecentEpisodes_connected_witness :
  let st := snd (addMemory mockRemote Samples.ids "n1" "c1" None
                   Samples.connected) in
  episodeQueue st = [("default", [Samples.episode0])] /\
  fst (getRecentEpisodes Samples.failingRemote None None st) = Returned [] /\
  fst (getRecentEpisodes mockRemote None None st) = Returned [].
Proof.
  split; [reflexivity |]. split.
  - apply (getRecentEpisodes_connected Samples.failingRemote None None
             (snd (addMemory mockRemote Samples.ids "n1" "c1" None
                     Samples.connected))).
    reflexivity.
  - apply (getRecentEpisodes_connected mockRemote None None
             (snd (addMemory mockRemote Samples.ids "n1" "c1" None
                     Samples.connected))).
    reflexivity.
Defined.
